(** * shader-canvas: the multi-pass shader compositor and its caches

    A shallow embedding of the compositing core of the repository:

    - [types/shader.ts]: the layer data model, [SHADER_DEFAULTS],
      [createShaderLayer];
    - [lib/webgl/program.ts], [texture.ts], [framebuffer.ts], [quad.ts],
      [context.ts]: the GPU resource helpers and their caches;
    - [lib/webgl/compositor.ts]: [hasEffect] and [ShaderCompositor];
    - [hooks/use-shader-renderer.ts]: the fingerprint and the bounded cache
      of processed images;
    - [store/actions/shader-actions.ts]: [removeShaderLayerAtom].

    WebGL itself is not part of the repository.  It is modelled as a driver
    that hands out fresh handles, answers the requests that may fail from a
    script, and whose commands are recorded in the order they are issued.
    What the GPU computes for a draw call is not modelled. *)

From Stdlib Require Import ZArith String List Bool Ascii Lia.
From Stdlib Require Import Floats.PrimFloat.
From stdpp Require Import base option gmap strings list sorting.

Set Warnings "-inexact-float".

Open Scope string_scope.
Open Scope Z_scope.
Open Scope list_scope.

(** ** JavaScript values *)

(** A JS [number] is an IEEE-754 double. *)
Definition number : Set := float.

(** [a !== b] on numbers. *)
Definition strict_ne (a b : number) : bool := negb (PrimFloat.eqb a b).

(** [a > b] on numbers. *)
Definition gt (a b : number) : bool := PrimFloat.ltb b a.

(** ** types/shader.ts *)

Inductive ShaderType : Set :=
| Brightness | Contrast | Blur | Saturation | HueRotate | Invert | Exposure
| ColorCorrection | BlendMode | FilmGrain | Duotone | Pixelate | Threshold
| Dither | Vignette | ChromaticAberration | Lut | Halation | Bloom.

(** The string literal that tags each member of the union. *)
Definition type_name (t : ShaderType) : string :=
  match t with
  | Brightness => "brightness"
  | Contrast => "contrast"
  | Blur => "blur"
  | Saturation => "saturation"
  | HueRotate => "hue-rotate"
  | Invert => "invert"
  | Exposure => "exposure"
  | ColorCorrection => "color-correction"
  | BlendMode => "blend-mode"
  | FilmGrain => "film-grain"
  | Duotone => "duotone"
  | Pixelate => "pixelate"
  | Threshold => "threshold"
  | Dither => "dither"
  | Vignette => "vignette"
  | ChromaticAberration => "chromatic-aberration"
  | Lut => "lut"
  | Halation => "halation"
  | Bloom => "bloom"
  end.

Inductive BlendModeType : Set :=
| multiply | screen | overlay | soft_light | hard_light | color_dodge
| color_burn.

(** [[number, number, number]] *)
Definition rgb : Set := (number * number * number)%type.

(** The [properties] member of the discriminated union [ShaderLayer]: one
    constructor per shader type, fields in the order the interfaces and
    [SHADER_DEFAULTS] declare them. *)
Inductive ShaderProperties : Set :=
| BrightnessProps (value : number)
| ContrastProps (value : number)
| BlurProps (radius quality : number)
| SaturationProps (value : number)
| HueRotateProps (degrees : number)
| InvertProps (amount : number)
| ExposureProps (value : number)
| ColorCorrectionProps (brightness contrast exposure saturation : number)
| BlendModeProps (mode : BlendModeType) (color : rgb) (opacity : number)
| FilmGrainProps (intensity size : number)
| DuotoneProps (shadowColor highlightColor : rgb)
| PixelateProps (size : number)
| ThresholdProps (value : number)
| DitherProps (scale : number)
| VignetteProps (size roundness smoothness : number)
| ChromaticAberrationProps (offset : number)
| LutProps (lutUrl : string) (intensity : number)
| HalationProps (threshold intensity spread : number) (tint : rgb)
| BloomProps (threshold intensity radius exposure : number).

Definition type_of (p : ShaderProperties) : ShaderType :=
  match p with
  | BrightnessProps _ => Brightness
  | ContrastProps _ => Contrast
  | BlurProps _ _ => Blur
  | SaturationProps _ => Saturation
  | HueRotateProps _ => HueRotate
  | InvertProps _ => Invert
  | ExposureProps _ => Exposure
  | ColorCorrectionProps _ _ _ _ => ColorCorrection
  | BlendModeProps _ _ _ => BlendMode
  | FilmGrainProps _ _ => FilmGrain
  | DuotoneProps _ _ => Duotone
  | PixelateProps _ => Pixelate
  | ThresholdProps _ => Threshold
  | DitherProps _ => Dither
  | VignetteProps _ _ _ => Vignette
  | ChromaticAberrationProps _ => ChromaticAberration
  | LutProps _ _ => Lut
  | HalationProps _ _ _ _ => Halation
  | BloomProps _ _ _ _ => Bloom
  end.

(** [ShaderLayerBase] with the union's payload.  [order] is an index of the
    owning image's layer array, hence an integer. *)
Module ShaderLayer.
Record t : Set := mk {
  id : string;
  enabled : bool;
  order : Z;
  properties : ShaderProperties;
}.
Definition type (l : t) : ShaderType := type_of (properties l).
End ShaderLayer.
Abbreviation ShaderLayer := ShaderLayer.t.

Definition SHADER_DEFAULTS (t : ShaderType) : ShaderProperties :=
  match t with
  | Brightness => BrightnessProps 0
  | Contrast => ContrastProps 0
  | Blur => BlurProps 0 8
  | Saturation => SaturationProps 1
  | HueRotate => HueRotateProps 0
  | Invert => InvertProps 0
  | Exposure => ExposureProps 1
  | ColorCorrection => ColorCorrectionProps 0 0 1 1
  | BlendMode => BlendModeProps multiply (1, 0.5, 0)%float 0.5
  | FilmGrain => FilmGrainProps 0.3 1.5
  | Duotone => DuotoneProps (0.1, 0.0, 0.2)%float (1.0, 0.9, 0.5)%float
  | Pixelate => PixelateProps 8
  | Threshold => ThresholdProps 0.5
  | Dither => DitherProps 1
  | Vignette => VignetteProps 0.25 0.5 0.5
  | ChromaticAberration => ChromaticAberrationProps 0.02
  | Lut => LutProps EmptyString 1.0
  | Halation => HalationProps 0.7 0.3 8 (1.0, 0.3, 0.1)%float
  | Bloom => BloomProps 0.6 0.5 10 1.0
  end%float.

Definition createShaderLayer (type : ShaderType) (id : string) (order : Z)
  : ShaderLayer :=
  {| ShaderLayer.id := id;
     ShaderLayer.enabled := true;
     ShaderLayer.order := order;
     ShaderLayer.properties := SHADER_DEFAULTS type |}.

(** ** lib/webgl/compositor.ts: [hasEffect] *)

Definition hasEffect (layer : ShaderLayer) : bool :=
  if negb (ShaderLayer.enabled layer) then false
  else
    match ShaderLayer.properties layer with
    | BrightnessProps value => strict_ne value 0
    | ContrastProps value => strict_ne value 0
    | ExposureProps value => strict_ne value 1
    | SaturationProps value => strict_ne value 1
    | InvertProps amount => gt amount 0
    | ColorCorrectionProps brightness contrast exposure saturation =>
        strict_ne brightness 0 || strict_ne contrast 0
        || strict_ne exposure 1 || strict_ne saturation 1
    | BlurProps radius _ => gt radius 0
    | HueRotateProps degrees => strict_ne degrees 0
    | BlendModeProps _ _ opacity => gt opacity 0
    | _ => true
    end%float.

(** ** JavaScript [Map<string, V>]

    A JS [Map] iterates in insertion order; [set] on a present key keeps the
    key's position. *)

Module JSMap.
Section Ordered.
Context {V : Type}.

Definition t : Type := list (string * V).

Definition empty : t := [].

Fixpoint get (m : t) (k : string) : option V :=
  match m with
  | [] => None
  | (k', v) :: m' => if String.eqb k' k then Some v else get m' k
  end.

Definition has (m : t) (k : string) : bool :=
  match get m k with Some _ => true | None => false end.

Fixpoint set (m : t) (k : string) (v : V) : t :=
  match m with
  | [] => [(k, v)]
  | (k', v') :: m' =>
      if String.eqb k' k then (k', v) :: m' else (k', v') :: set m' k v
  end.

Fixpoint delete (m : t) (k : string) : t :=
  match m with
  | [] => []
  | (k', v') :: m' =>
      if String.eqb k' k then m' else (k', v') :: delete m' k
  end.

Definition size (m : t) : nat := length m.

Definition keys (m : t) : list string := map fst m.

Definition values (m : t) : list V := map snd m.

(** [m.keys().next().value] *)
Definition first_key (m : t) : option string := head (keys m).

End Ordered.
Arguments t : clear implicits.
End JSMap.

(** ** The WebGL driver *)

Definition handle : Set := nat.
Abbreviation WebGLShader := handle.
Abbreviation WebGLProgram := handle.
Abbreviation WebGLTexture := handle.
Abbreviation WebGLFramebuffer := handle.
Abbreviation WebGLBuffer := handle.
Abbreviation WebGLVertexArrayObject := handle.

(** A uniform location names a uniform of one linked program. *)
Record WebGLUniformLocation : Set := {
  loc_program : WebGLProgram;
  loc_name : string;
}.

(** The GLSL texts exported by [@/shaders] that the compositor uses. *)
Inductive ShaderSource : Set :=
| quadVertexShader
| colorCorrectionFragmentShader
| brightnessFragmentShader
| contrastFragmentShader
| exposureFragmentShader
| saturationFragmentShader
| invertFragmentShader
| hueRotateFragmentShader
| blendModeFragmentShader
| passthroughFragmentShader.

Inductive ShaderKind : Set := VERTEX_SHADER | FRAGMENT_SHADER.

Inductive TexParameter : Set :=
| TEXTURE_WRAP_S | TEXTURE_WRAP_T | TEXTURE_MIN_FILTER | TEXTURE_MAG_FILTER.

Inductive TexParameterValue : Set := CLAMP_TO_EDGE | LINEAR.

(** [HTMLImageElement]: the source identity and the load flag. *)
Record HTMLImageElement : Set := {
  src : string;
  complete : bool;
}.

(** The methods of [WebGL2RenderingContext] that the code calls and that
    change GPU state, with the arguments that vary.  A creation request
    records the handle it returned ([None] for [null]). *)
Module gl.
Inductive Call : Set :=
| createShader (kind : ShaderKind) (r : option WebGLShader)
| shaderSource (s : WebGLShader) (source : ShaderSource)
| compileShader (s : WebGLShader)
| deleteShader (s : WebGLShader)
| createProgram (r : option WebGLProgram)
| attachShader (p : WebGLProgram) (s : WebGLShader)
| linkProgram (p : WebGLProgram)
| deleteProgram (p : WebGLProgram)
| useProgram (p : WebGLProgram)
| createTexture (r : option WebGLTexture)
| activeTexture (unit : nat)
| bindTexture (t : option WebGLTexture)
| texParameteri (pname : TexParameter) (v : TexParameterValue)
| texImage2D_image (image : HTMLImageElement)
| texImage2D_empty (width height : Z)
| deleteTexture (t : WebGLTexture)
| createFramebuffer (r : option WebGLFramebuffer)
| bindFramebuffer (f : option WebGLFramebuffer)
| framebufferTexture2D (t : WebGLTexture)
| deleteFramebuffer (f : WebGLFramebuffer)
| viewport (x y width height : Z)
| clearColor (r g b a : number)
| clear
| uniform1i (l : WebGLUniformLocation) (v : Z)
| uniform1f (l : WebGLUniformLocation) (v : number)
| uniform2f (l : WebGLUniformLocation) (x y : Z)
| uniform3f (l : WebGLUniformLocation) (x y z : number)
| createBuffer (r : option WebGLBuffer)
| bindBuffer (b : WebGLBuffer)
| bufferData
| createVertexArray (r : option WebGLVertexArrayObject)
| bindVertexArray (v : option WebGLVertexArrayObject)
| enableVertexAttribArray (index : Z)
| vertexAttribPointer (index : Z) (size : Z)
| drawArrays (first count : Z).
End gl.

(** The state of the driver.  [answers] scripts the requests that may fail
    (object creation, compile, link and completeness status), in the order
    they will be made: [true] grants the request; once the script is used up
    every request is granted. *)
Record Driver : Type := {
  answers : list bool;
  next_handle : handle;
  uniform_active : WebGLProgram -> string -> bool;
  attrib_location : WebGLProgram -> string -> Z;
}.

(** A computation against the driver: its result, the calls it issued in
    order, and the driver afterwards. *)
Definition GL (A : Type) : Type := Driver -> A * list gl.Call * Driver.

#[export] Instance GL_ret : MRet GL := fun A a d => (a, [], d).

#[export] Instance GL_bind : MBind GL := fun A B f m d =>
  let '(a, t1, d1) := m d in
  let '(b, t2, d2) := f a d1 in
  (b, t1 ++ t2, d2).

Definition issue (c : gl.Call) : GL unit := fun d => (tt, [c], d).

Definition granted : GL bool := fun d =>
  match answers d with
  | [] => (true, [], d)
  | b :: rest =>
      (b, [], {| answers := rest; next_handle := next_handle d;
                 uniform_active := uniform_active d;
                 attrib_location := attrib_location d |})
  end.

Definition fresh : GL handle := fun d =>
  (next_handle d, [],
   {| answers := answers d; next_handle := S (next_handle d);
      uniform_active := uniform_active d;
      attrib_location := attrib_location d |}).

(** [gl.createX()]: a fresh object, or [null]. *)
Definition create (call : option handle -> gl.Call) : GL (option handle) :=
  ok ← granted;
  if ok : bool then h ← fresh; issue (call (Some h));; mret (Some h)
  else issue (call None);; mret None.

(** Result, calls and final driver of a run. *)
Definition result {A} (r : A * list gl.Call * Driver) : A := fst (fst r).
Definition calls {A} (r : A * list gl.Call * Driver) : list gl.Call :=
  snd (fst r).
Definition driver {A} (r : A * list gl.Call * Driver) : Driver := snd r.

Fixpoint for_each {A} (l : list A) (body : A -> GL unit) : GL unit :=
  match l with
  | [] => mret tt
  | x :: l' => body x;; for_each l' body
  end.

(** ** lib/webgl/program.ts

    Console output is not modelled. *)

Definition compileShader (type : ShaderKind) (source : ShaderSource)
  : GL (option WebGLShader) :=
  shader ← create (gl.createShader type);
  match shader with
  | None => mret None
  | Some shader =>
      issue (gl.shaderSource shader source);;
      issue (gl.compileShader shader);;
      (* gl.getShaderParameter(shader, gl.COMPILE_STATUS) *)
      status ← granted;
      if status : bool then mret (Some shader)
      else issue (gl.deleteShader shader);; mret None
  end.

Definition createProgram (vertexSource fragmentSource : ShaderSource)
  : GL (option WebGLProgram) :=
  vertexShader ← compileShader VERTEX_SHADER vertexSource;
  fragmentShader ← compileShader FRAGMENT_SHADER fragmentSource;
  match vertexShader, fragmentShader with
  | Some vertexShader, Some fragmentShader =>
      program ← create gl.createProgram;
      match program with
      | None => mret None
      | Some program =>
          issue (gl.attachShader program vertexShader);;
          issue (gl.attachShader program fragmentShader);;
          issue (gl.linkProgram program);;
          (* gl.getProgramParameter(program, gl.LINK_STATUS) *)
          status ← granted;
          if status : bool then
            issue (gl.deleteShader vertexShader);;
            issue (gl.deleteShader fragmentShader);;
            mret (Some program)
          else issue (gl.deleteProgram program);; mret None
      end
  | _, _ => mret None
  end.

Definition getUniformLocation (program : WebGLProgram) (name : string)
  : GL (option WebGLUniformLocation) := fun d =>
  (if uniform_active d program name
   then Some {| loc_program := program; loc_name := name |}
   else None, [], d).

Definition getAttribLocation (program : WebGLProgram) (name : string)
  : GL Z := fun d => (attrib_location d program name, [], d).

Module ShaderProgramManager.
Record t := mk { programs : JSMap.t WebGLProgram }.

Definition new : t := {| programs := JSMap.empty |}.

Definition getProgram (this : t) (key : string)
    (vertexSource fragmentSource : ShaderSource)
  : GL (option WebGLProgram * t) :=
  if JSMap.has (programs this) key then
    mret (JSMap.get (programs this) key, this)
  else
    program ← createProgram vertexSource fragmentSource;
    match program with
    | Some p => mret (Some p, {| programs := JSMap.set (programs this) key p |})
    | None => mret (None, this)
    end.

Definition dispose (this : t) : GL t :=
  for_each (JSMap.values (programs this))
           (fun program => issue (gl.deleteProgram program));;
  mret {| programs := JSMap.empty |}.
End ShaderProgramManager.

(** ** lib/webgl/texture.ts *)

Definition createTextureFromImage (image : HTMLImageElement)
  : GL (option WebGLTexture) :=
  texture ← create gl.createTexture;
  match texture with
  | None => mret None
  | Some texture =>
      issue (gl.bindTexture (Some texture));;
      issue (gl.texParameteri TEXTURE_WRAP_S CLAMP_TO_EDGE);;
      issue (gl.texParameteri TEXTURE_WRAP_T CLAMP_TO_EDGE);;
      issue (gl.texParameteri TEXTURE_MIN_FILTER LINEAR);;
      issue (gl.texParameteri TEXTURE_MAG_FILTER LINEAR);;
      issue (gl.texImage2D_image image);;
      mret (Some texture)
  end.

Definition createEmptyTexture (width height : Z) : GL (option WebGLTexture) :=
  texture ← create gl.createTexture;
  match texture with
  | None => mret None
  | Some texture =>
      issue (gl.bindTexture (Some texture));;
      issue (gl.texParameteri TEXTURE_WRAP_S CLAMP_TO_EDGE);;
      issue (gl.texParameteri TEXTURE_WRAP_T CLAMP_TO_EDGE);;
      issue (gl.texParameteri TEXTURE_MIN_FILTER LINEAR);;
      issue (gl.texParameteri TEXTURE_MAG_FILTER LINEAR);;
      issue (gl.texImage2D_empty width height);;
      mret (Some texture)
  end.

(** The compositor may pass [null] here (see [getReadTexture]). *)
Definition bindTexture (texture : option WebGLTexture) (unit_ : nat)
  : GL unit :=
  issue (gl.activeTexture unit_);;
  issue (gl.bindTexture texture).

Definition updateTexture (texture : WebGLTexture) (image : HTMLImageElement)
  : GL unit :=
  issue (gl.bindTexture (Some texture));;
  issue (gl.texImage2D_image image).

Module TextureCache.
Record t := mk { textures : JSMap.t WebGLTexture }.

Definition new : t := {| textures := JSMap.empty |}.

Definition getTexture (this : t) (url : string) (image : HTMLImageElement)
  : GL (option WebGLTexture * t) :=
  if JSMap.has (textures this) url then
    mret (JSMap.get (textures this) url, this)
  else
    texture ← createTextureFromImage image;
    match texture with
    | Some tx => mret (Some tx, {| textures := JSMap.set (textures this) url tx |})
    | None => mret (None, this)
    end.

Definition dispose (this : t) : GL t :=
  for_each (JSMap.values (textures this))
           (fun texture => issue (gl.deleteTexture texture));;
  mret {| textures := JSMap.empty |}.

Definition updateTexture (this : t) (url : string) (image : HTMLImageElement)
  : GL unit :=
  match JSMap.get (textures this) url with
  | Some texture => updateTexture texture image
  | None => mret tt
  end.

Definition removeTexture (this : t) (url : string) : GL t :=
  match JSMap.get (textures this) url with
  | Some texture =>
      issue (gl.deleteTexture texture);;
      mret {| textures := JSMap.delete (textures this) url |}
  | None => mret this
  end.
End TextureCache.

(** ** lib/webgl/framebuffer.ts *)

Module Framebuffer.
Record t : Set := mk {
  framebuffer : WebGLFramebuffer;
  texture : WebGLTexture;
  width : Z;
  height : Z;
}.
End Framebuffer.
Abbreviation Framebuffer := Framebuffer.t.

Definition createFramebuffer (width height : Z) : GL (option Framebuffer) :=
  framebuffer ← create gl.createFramebuffer;
  match framebuffer with
  | None => mret None
  | Some framebuffer =>
      texture ← createEmptyTexture width height;
      match texture with
      | None => issue (gl.deleteFramebuffer framebuffer);; mret None
      | Some texture =>
          issue (gl.bindFramebuffer (Some framebuffer));;
          issue (gl.framebufferTexture2D texture);;
          (* gl.checkFramebufferStatus(...) === gl.FRAMEBUFFER_COMPLETE *)
          complete ← granted;
          if complete : bool then
            issue (gl.bindFramebuffer None);;
            mret (Some (Framebuffer.mk framebuffer texture width height))
          else
            issue (gl.deleteFramebuffer framebuffer);;
            issue (gl.deleteTexture texture);;
            mret None
      end
  end.

Definition deleteFramebuffer (fb : Framebuffer) : GL unit :=
  issue (gl.deleteFramebuffer (Framebuffer.framebuffer fb));;
  issue (gl.deleteTexture (Framebuffer.texture fb)).

Module PingPongBuffer.
Record t : Set := mk {
  framebuffers : option Framebuffer * option Framebuffer;
  currentIndex : nat;
  width : Z;
  height : Z;
}.

Definition new : t :=
  {| framebuffers := (None, None); currentIndex := 0; width := 0;
     height := 0 |}.

(** [this.framebuffers[i]]; out of the tuple it is [undefined]. *)
Definition at_index (fbs : option Framebuffer * option Framebuffer)
    (i : nat) : option Framebuffer :=
  match i with
  | O => fst fbs
  | S O => snd fbs
  | _ => None
  end.

Definition dispose (this : t) : GL t :=
  for_each [fst (framebuffers this); snd (framebuffers this)]
           (fun fb => match fb with
                      | Some fb => deleteFramebuffer fb
                      | None => mret tt
                      end);;
  mret {| framebuffers := (None, None); currentIndex := currentIndex this;
          width := width this; height := height this |}.

Definition resize (this : t) (width height : Z) : GL (bool * t) :=
  if (PingPongBuffer.width this =? width)
     && (PingPongBuffer.height this =? height)
  then mret (true, this)
  else
    let this := {| framebuffers := framebuffers this;
                   currentIndex := currentIndex this;
                   width := width; height := height |} in
    this ← dispose this;
    fb0 ← createFramebuffer width height;
    fb1 ← createFramebuffer width height;
    mret (match fb0, fb1 with Some _, Some _ => true | _, _ => false end,
          {| framebuffers := (fb0, fb1); currentIndex := currentIndex this;
             width := PingPongBuffer.width this;
             height := PingPongBuffer.height this |}).

Definition getReadTexture (this : t) : option WebGLTexture :=
  Framebuffer.texture <$> at_index (framebuffers this) (currentIndex this).

Definition getWriteFramebuffer (this : t) : option WebGLFramebuffer :=
  let writeIndex := ((currentIndex this + 1) mod 2)%nat in
  Framebuffer.framebuffer <$> at_index (framebuffers this) writeIndex.

Definition getWriteTexture (this : t) : option WebGLTexture :=
  let writeIndex := ((currentIndex this + 1) mod 2)%nat in
  Framebuffer.texture <$> at_index (framebuffers this) writeIndex.

Definition swap (this : t) : t :=
  {| framebuffers := framebuffers this;
     currentIndex := ((currentIndex this + 1) mod 2)%nat;
     width := width this; height := height this |}.

Definition reset (this : t) : t :=
  {| framebuffers := framebuffers this; currentIndex := 0;
     width := width this; height := height this |}.
End PingPongBuffer.

(** ** lib/webgl/quad.ts *)

Definition createQuadBuffer : GL (option WebGLBuffer) :=
  buffer ← create gl.createBuffer;
  match buffer with
  | None => mret None
  | Some buffer =>
      issue (gl.bindBuffer buffer);;
      issue gl.bufferData;;
      mret (Some buffer)
  end.

Definition setupQuadAttributes (program : WebGLProgram) (buffer : WebGLBuffer)
  : GL unit :=
  positionLocation ← getAttribLocation program "a_position";
  issue (gl.bindBuffer buffer);;
  issue (gl.enableVertexAttribArray positionLocation);;
  issue (gl.vertexAttribPointer positionLocation 2).

Definition drawQuad : GL unit := issue (gl.drawArrays 0 6).

Module QuadRenderer.
Record t : Set := mk {
  vao : option WebGLVertexArrayObject;
  buffer : option WebGLBuffer;
}.

Definition new : GL t :=
  buffer ← createQuadBuffer;
  vao ← create gl.createVertexArray;
  mret {| vao := vao; buffer := buffer |}.

Definition setupForProgram (this : t) (program : WebGLProgram) : GL unit :=
  match vao this, buffer this with
  | Some vao, Some buffer =>
      issue (gl.bindVertexArray (Some vao));;
      setupQuadAttributes program buffer;;
      issue (gl.bindVertexArray None)
  | _, _ => mret tt
  end.

Definition draw (this : t) : GL unit :=
  match vao this with
  | Some vao =>
      issue (gl.bindVertexArray (Some vao));;
      drawQuad;;
      issue (gl.bindVertexArray None)
  | None => mret tt
  end.
End QuadRenderer.

(** ** lib/webgl/context.ts *)

Definition clearCanvas : GL unit :=
  issue (gl.clearColor 0 0 0 0)%float;;
  issue gl.clear.

(** ** lib/webgl/compositor.ts *)

Definition getFragmentShader (type : ShaderType) : ShaderSource :=
  match type with
  | Brightness => brightnessFragmentShader
  | Contrast => contrastFragmentShader
  | Exposure => exposureFragmentShader
  | Saturation => saturationFragmentShader
  | Invert => invertFragmentShader
  | HueRotate => hueRotateFragmentShader
  | BlendMode => blendModeFragmentShader
  | ColorCorrection => colorCorrectionFragmentShader
  | _ => passthroughFragmentShader
  end.

Definition BLEND_MODE_VALUES (mode : BlendModeType) : Z :=
  match mode with
  | multiply => 0
  | screen => 1
  | overlay => 2
  | soft_light => 3
  | hard_light => 4
  | color_dodge => 5
  | color_burn => 6
  end.

(** [if (loc) gl.uniform...(loc, ...)] *)
Definition if_loc (loc : option WebGLUniformLocation)
    (call : WebGLUniformLocation -> gl.Call) : GL unit :=
  match loc with
  | Some l => issue (call l)
  | None => mret tt
  end.

Definition setShaderUniforms (program : WebGLProgram) (layer : ShaderLayer)
  : GL unit :=
  match ShaderLayer.properties layer with
  | BrightnessProps value
  | ContrastProps value
  | ExposureProps value
  | SaturationProps value =>
      loc ← getUniformLocation program "u_value";
      if_loc loc (fun l => gl.uniform1f l value)
  | InvertProps amount =>
      loc ← getUniformLocation program "u_amount";
      if_loc loc (fun l => gl.uniform1f l amount)
  | HueRotateProps degrees =>
      loc ← getUniformLocation program "u_degrees";
      if_loc loc (fun l => gl.uniform1f l degrees)
  | BlendModeProps mode (r, g, b) opacity =>
      colorLoc ← getUniformLocation program "u_blendColor";
      opacityLoc ← getUniformLocation program "u_opacity";
      modeLoc ← getUniformLocation program "u_mode";
      if_loc colorLoc (fun l => gl.uniform3f l r g b);;
      if_loc opacityLoc (fun l => gl.uniform1f l opacity);;
      if_loc modeLoc (fun l => gl.uniform1i l (BLEND_MODE_VALUES mode))
  | ColorCorrectionProps brightness contrast exposure saturation =>
      brightnessLoc ← getUniformLocation program "u_brightness";
      contrastLoc ← getUniformLocation program "u_contrast";
      exposureLoc ← getUniformLocation program "u_exposure";
      saturationLoc ← getUniformLocation program "u_saturation";
      if_loc brightnessLoc (fun l => gl.uniform1f l brightness);;
      if_loc contrastLoc (fun l => gl.uniform1f l contrast);;
      if_loc exposureLoc (fun l => gl.uniform1f l exposure);;
      if_loc saturationLoc (fun l => gl.uniform1f l saturation)
  | _ => mret tt
  end.

(** [.sort((a, b) => a.order - b.order)]: [Array.prototype.sort] is stable,
    so layers of equal order keep their input order. *)
Fixpoint insert_by_order (a : ShaderLayer) (sorted : list ShaderLayer)
  : list ShaderLayer :=
  match sorted with
  | [] => [a]
  | b :: rest =>
      if ShaderLayer.order a <=? ShaderLayer.order b then a :: b :: rest
      else b :: insert_by_order a rest
  end.

Definition sort_by_order (layers : list ShaderLayer) : list ShaderLayer :=
  fold_right insert_by_order [] layers.

Module ShaderCompositor.
Record t := mk {
  programManager : ShaderProgramManager.t;
  textureCache : TextureCache.t;
  pingPong : PingPongBuffer.t;
  quadRenderer : QuadRenderer.t;
  width : Z;
  height : Z;
}.

Definition set_programManager (this : t) (pm : ShaderProgramManager.t) : t :=
  mk pm (textureCache this) (pingPong this) (quadRenderer this)
     (width this) (height this).

Definition set_textureCache (this : t) (tc : TextureCache.t) : t :=
  mk (programManager this) tc (pingPong this) (quadRenderer this)
     (width this) (height this).

Definition set_pingPong (this : t) (pp : PingPongBuffer.t) : t :=
  mk (programManager this) (textureCache this) pp (quadRenderer this)
     (width this) (height this).

Definition new : GL t :=
  quadRenderer ← QuadRenderer.new;
  mret (mk ShaderProgramManager.new TextureCache.new PingPongBuffer.new
           quadRenderer 0 0).

Definition resize (this : t) (width height : Z) : GL t :=
  if (ShaderCompositor.width this =? width)
     && (ShaderCompositor.height this =? height)
  then mret this
  else
    let this := mk (programManager this) (textureCache this) (pingPong this)
                   (quadRenderer this) width height in
    '(_, pp) ← PingPongBuffer.resize (pingPong this) width height;
    mret (set_pingPong this pp).

(** [renderPassthrough] once the program is there: what follows
    [if (!program) return;]. *)
Definition drawPassthrough (this : t) (program : WebGLProgram)
    (texture : WebGLTexture) : GL t :=
  issue (gl.useProgram program);;
  QuadRenderer.setupForProgram (quadRenderer this) program;;
  issue (gl.bindFramebuffer None);;
  issue (gl.viewport 0 0 (width this) (height this));;
  clearCanvas;;
  bindTexture (Some texture) 0;;
  texLoc ← getUniformLocation program "u_image";
  if_loc texLoc (fun l => gl.uniform1i l 0);;
  flipYLoc ← getUniformLocation program "u_flipY";
  if_loc flipYLoc (fun l => gl.uniform1i l 1);;
  QuadRenderer.draw (quadRenderer this);;
  mret this.

Definition renderPassthrough (this : t) (texture : WebGLTexture) : GL t :=
  '(program, pm) ← ShaderProgramManager.getProgram (programManager this)
                     "passthrough" quadVertexShader passthroughFragmentShader;
  let this := set_programManager this pm in
  match program with
  | None => mret this
  | Some program => drawPassthrough this program texture
  end.

(** The body of the [for] loop of [render] once the program is there:
    what follows [if (!program) continue;]. *)
Definition drawPass (n i : nat) (layer : ShaderLayer) (this : t)
    (program : WebGLProgram) (inputTexture : option WebGLTexture)
  : GL (t * option WebGLTexture) :=
  let isLastPass := (i =? n - 1)%nat in
  issue (gl.useProgram program);;
  QuadRenderer.setupForProgram (quadRenderer this) program;;
  (if isLastPass then
     issue (gl.bindFramebuffer None);;
     issue (gl.viewport 0 0 (width this) (height this))
   else
     let writeFb := PingPongBuffer.getWriteFramebuffer (pingPong this) in
     issue (gl.bindFramebuffer writeFb);;
     issue (gl.viewport 0 0 (width this) (height this)));;
  clearCanvas;;
  bindTexture inputTexture 0;;
  texLoc ← getUniformLocation program "u_image";
  if_loc texLoc (fun l => gl.uniform1i l 0);;
  resLoc ← getUniformLocation program "u_resolution";
  if_loc resLoc (fun l => gl.uniform2f l (width this) (height this));;
  setShaderUniforms program layer;;
  flipYLoc ← getUniformLocation program "u_flipY";
  if_loc flipYLoc (fun l => gl.uniform1i l (if (i =? 0)%nat then 1 else 0));;
  QuadRenderer.draw (quadRenderer this);;
  if negb isLastPass then
    let pp := PingPongBuffer.swap (pingPong this) in
    mret (set_pingPong this pp, PingPongBuffer.getReadTexture pp)
  else mret (this, inputTexture).

(** The body of the [for] loop of [render], at index [i] of [n] active
    layers: the compositor and the input texture of the next iteration. *)
Definition renderPass (n i : nat) (layer : ShaderLayer) (this : t)
    (inputTexture : option WebGLTexture) : GL (t * option WebGLTexture) :=
  let fragmentShader := getFragmentShader (ShaderLayer.type layer) in
  '(program, pm) ← ShaderProgramManager.getProgram (programManager this)
                     (type_name (ShaderLayer.type layer))
                     quadVertexShader fragmentShader;
  let this := set_programManager this pm in
  match program with
  | None => mret (this, inputTexture)
  | Some program => drawPass n i layer this program inputTexture
  end.

(** The loop from index [i] over the remaining active layers. *)
Fixpoint renderPasses (n i : nat) (remaining : list ShaderLayer) (this : t)
    (inputTexture : option WebGLTexture) : GL t :=
  match remaining with
  | [] => mret this
  | layer :: remaining' =>
      '(this, inputTexture) ← renderPass n i layer this inputTexture;
      renderPasses n (S i) remaining' this inputTexture
  end.

Definition render (this : t) (image : HTMLImageElement)
    (layers : list ShaderLayer) : GL t :=
  '(imageTexture, tc) ← TextureCache.getTexture (textureCache this)
                          (src image) image;
  let this := set_textureCache this tc in
  match imageTexture with
  | None => mret this
  | Some imageTexture =>
      let activeLayers := sort_by_order (List.filter hasEffect layers) in
      if (length activeLayers =? 0)%nat then renderPassthrough this imageTexture
      else
        '(_, pp) ← PingPongBuffer.resize (pingPong this)
                     (width this) (height this);
        let this := set_pingPong this (PingPongBuffer.reset pp) in
        renderPasses (length activeLayers) 0 activeLayers this
                     (Some imageTexture)
  end.
End ShaderCompositor.

(** ** store/actions/shader-actions.ts *)

Module CanvasImage.
Record t : Set := mk {
  id : string;
  url : string;
  position : number * number;
  size : number * number;
  originalSize : number * number;
  shaderLayers : list ShaderLayer;
  zIndex : Z;
  locked : bool;
  visible : bool;
}.

(** [{ ...img, shaderLayers }] *)
Definition set_shaderLayers (img : t) (layers : list ShaderLayer) : t :=
  mk (id img) (url img) (position img) (size img) (originalSize img) layers
     (zIndex img) (locked img) (visible img).
End CanvasImage.
Abbreviation CanvasImage := CanvasImage.t.

(** [{ ...layer, order: index }] *)
Definition set_order (layer : ShaderLayer) (index : nat) : ShaderLayer :=
  ShaderLayer.mk (ShaderLayer.id layer) (ShaderLayer.enabled layer)
                 (Z.of_nat index) (ShaderLayer.properties layer).

(** The write function of [removeShaderLayerAtom]: the value of [imagesAtom]
    it reads, the payload, and the value it sets. *)
Definition removeShaderLayerAtom (images : list CanvasImage)
    (imageId layerId : string) : list CanvasImage :=
  map (fun img =>
         if negb (String.eqb (CanvasImage.id img) imageId) then img
         else
           CanvasImage.set_shaderLayers img
             (imap (fun index layer => set_order layer index)
                (List.filter
                   (fun layer =>
                      negb (String.eqb (ShaderLayer.id layer) layerId))
                   (CanvasImage.shaderLayers img))))
      images.

(** ** hooks/use-shader-renderer.ts *)

Module HTMLCanvasElement.
(** [element] tells apart the objects made by [document.createElement];
    the pixels are not modelled. *)
Record t : Set := mk {
  element : handle;
  width : Z;
  height : Z;
}.
End HTMLCanvasElement.
Abbreviation HTMLCanvasElement := HTMLCanvasElement.t.

(** The refs of the hook.  [glRef] and [compositorRef] are set together, so
    one field stands for both. *)
Module Renderer.
Record t := mk {
  offscreenCanvas : option HTMLCanvasElement;
  compositor : option ShaderCompositor.t;
  processedCache : JSMap.t HTMLCanvasElement;
}.
End Renderer.

(** The double-quote character. *)
Definition dquote : string :=
  String (Ascii false true false false false true false false) EmptyString.

(** A member value of a properties object. *)
Inductive JSONValue : Set :=
| JNumber (n : number)
| JString (s : string)
| JRgb (c : rgb).

Definition BlendModeType_name (mode : BlendModeType) : string :=
  match mode with
  | multiply => "multiply"
  | screen => "screen"
  | overlay => "overlay"
  | soft_light => "soft-light"
  | hard_light => "hard-light"
  | color_dodge => "color-dodge"
  | color_burn => "color-burn"
  end.

(** The members of a properties object, by name.  They are listed in the
    order of [SHADER_DEFAULTS]. *)
Definition members (p : ShaderProperties) : list (string * JSONValue) :=
  match p with
  | BrightnessProps value
  | ContrastProps value
  | SaturationProps value
  | ExposureProps value
  | ThresholdProps value => [("value", JNumber value)]
  | BlurProps radius quality =>
      [("radius", JNumber radius); ("quality", JNumber quality)]
  | HueRotateProps degrees => [("degrees", JNumber degrees)]
  | InvertProps amount => [("amount", JNumber amount)]
  | ColorCorrectionProps brightness contrast exposure saturation =>
      [("brightness", JNumber brightness); ("contrast", JNumber contrast);
       ("exposure", JNumber exposure); ("saturation", JNumber saturation)]
  | BlendModeProps mode color opacity =>
      [("mode", JString (BlendModeType_name mode)); ("color", JRgb color);
       ("opacity", JNumber opacity)]
  | FilmGrainProps intensity size =>
      [("intensity", JNumber intensity); ("size", JNumber size)]
  | DuotoneProps shadowColor highlightColor =>
      [("shadowColor", JRgb shadowColor);
       ("highlightColor", JRgb highlightColor)]
  | PixelateProps size => [("size", JNumber size)]
  | DitherProps scale => [("scale", JNumber scale)]
  | VignetteProps size roundness smoothness =>
      [("size", JNumber size); ("roundness", JNumber roundness);
       ("smoothness", JNumber smoothness)]
  | ChromaticAberrationProps offset => [("offset", JNumber offset)]
  | LutProps lutUrl intensity =>
      [("lutUrl", JString lutUrl); ("intensity", JNumber intensity)]
  | HalationProps threshold intensity spread tint =>
      [("threshold", JNumber threshold); ("intensity", JNumber intensity);
       ("spread", JNumber spread); ("tint", JRgb tint)]
  | BloomProps threshold intensity radius exposure =>
      [("threshold", JNumber threshold); ("intensity", JNumber intensity);
       ("radius", JNumber radius); ("exposure", JNumber exposure)]
  end.

(** A layer as the hook holds it: the JS object.  The typed view [layer]
    gives the value of each member of [properties]; it does not record the
    order in which the members were added to that object, which
    [JSON.stringify] follows.  [keys] is [Object.keys(l.properties)]. *)
Module LayerObject.
Record t : Type := mk {
  layer : ShaderLayer;
  keys : list string;
}.

Definition id (l : t) : string := ShaderLayer.id (layer l).
Definition enabled (l : t) : bool := ShaderLayer.enabled (layer l).
Definition properties (l : t) : ShaderProperties :=
  ShaderLayer.properties (layer l).

(** The object of a layer whose properties were built from
    [SHADER_DEFAULTS] by [createShaderLayer] and changed by
    [{ ...properties, [key]: value }], which keeps the order. *)
Definition built (l : ShaderLayer) : t :=
  {| layer := l; keys := map fst (members (ShaderLayer.properties l)) |}.
End LayerObject.

Section useShaderRenderer.

(** [JSON.stringify] on a number and on a string, which belong to the
    JavaScript engine. *)
Variable JSON_number : number -> string.
Variable JSON_string : string -> string.

Definition JSON_member (key value : string) : string :=
  (dquote ++ key ++ dquote ++ ":" ++ value)%string.

Definition JSON_object (members : list string) : string :=
  ("{" ++ String.concat "," members ++ "}")%string.

Definition JSON_array (items : list string) : string :=
  ("[" ++ String.concat "," items ++ "]")%string.

Definition JSON_rgb (c : rgb) : string :=
  let '(r, g, b) := c in
  JSON_array [JSON_number r; JSON_number g; JSON_number b].

Definition JSON_value (v : JSONValue) : string :=
  match v with
  | JNumber n => JSON_number n
  | JString s => JSON_string s
  | JRgb c => JSON_rgb c
  end.

(** [JSON.stringify(l.properties)] walks the own members of the object in
    the object's order, [keys], and writes each with its value. *)
Definition JSON_stringify (keys : list string) (p : ShaderProperties)
  : string :=
  JSON_object
    (omap (fun key =>
             (fun v => JSON_member key (JSON_value v))
             <$> JSMap.get (members p) key)
          keys).

(** The [useEffect] that initialises the refs. *)
Definition mount : GL Renderer.t :=
  element ← fresh;
  let canvas := HTMLCanvasElement.mk element 1 1 in
  (* createWebGLContext(canvas) *)
  gl ← granted;
  if gl : bool then
    compositor ← ShaderCompositor.new;
    mret (Renderer.mk (Some canvas) (Some compositor) JSMap.empty)
  else mret (Renderer.mk (Some canvas) None JSMap.empty).

Definition processImage (this : Renderer.t) (image : HTMLImageElement)
    (layers : list ShaderLayer) (width height : Z)
  : GL (option HTMLCanvasElement * Renderer.t) :=
  match Renderer.offscreenCanvas this, Renderer.compositor this with
  | Some canvas, Some compositor =>
      if negb (complete image) then mret (None, this)
      else
        let activeLayers := List.filter ShaderLayer.enabled layers in
        if (length activeLayers =? 0)%nat then mret (None, this)
        else
          canvas ←
            (if negb (HTMLCanvasElement.width canvas =? width)
                || negb (HTMLCanvasElement.height canvas =? height)
             then
               issue (gl.viewport 0 0 width height);;
               mret (HTMLCanvasElement.mk (HTMLCanvasElement.element canvas)
                       width height)
             else mret canvas);
          compositor ← ShaderCompositor.resize compositor width height;
          compositor ← ShaderCompositor.render compositor image activeLayers;
          element ← fresh;
          let outputCanvas := HTMLCanvasElement.mk element width height in
          mret (Some outputCanvas,
                Renderer.mk (Some canvas) (Some compositor)
                            (Renderer.processedCache this))
  | _, _ => mret (None, this)
  end.

Definition getCacheKey (imageUrl : string) (layers : list LayerObject.t)
  : string :=
  let layerHash :=
    String.concat "|"
      (map (fun l => (LayerObject.id l ++ ":"
                      ++ JSON_stringify (LayerObject.keys l)
                           (LayerObject.properties l))%string)
           (List.filter LayerObject.enabled layers)) in
  (imageUrl ++ "::" ++ layerHash)%string.

(** [if (firstKey)]: a string is falsy when it is empty. *)
Definition truthy (s : string) : bool :=
  match s with EmptyString => false | _ => true end.

(** The "limit cache size" block of [getProcessedImage] and the [set] that
    follows it. *)
Definition limit_and_set (cache : JSMap.t HTMLCanvasElement)
    (cacheKey : string) (processed : HTMLCanvasElement)
  : JSMap.t HTMLCanvasElement :=
  let cache :=
    if (50 <? JSMap.size cache)%nat then
      match JSMap.first_key cache with
      | Some firstKey =>
          if truthy firstKey then JSMap.delete cache firstKey else cache
      | None => cache
      end
    else cache in
  JSMap.set cache cacheKey processed.

Definition getProcessedImage (this : Renderer.t) (image : HTMLImageElement)
    (layers : list LayerObject.t) (width height : Z)
  : GL ((HTMLCanvasElement + HTMLImageElement) * Renderer.t) :=
  let activeLayers := List.filter LayerObject.enabled layers in
  if (length activeLayers =? 0)%nat then mret (inr image, this)
  else
    let cacheKey := getCacheKey (src image) layers in
    match JSMap.get (Renderer.processedCache this) cacheKey with
    | Some cached =>
        if (HTMLCanvasElement.width cached =? width)
           && (HTMLCanvasElement.height cached =? height)
        then mret (inl cached, this)
        else
          '(processed, this) ← processImage this image
                                 (map LayerObject.layer layers) width height;
          match processed with
          | Some processed =>
              mret (inl processed,
                    Renderer.mk (Renderer.offscreenCanvas this)
                      (Renderer.compositor this)
                      (limit_and_set (Renderer.processedCache this)
                                     cacheKey processed))
          | None => mret (inr image, this)
          end
    | None =>
        '(processed, this) ← processImage this image
                                 (map LayerObject.layer layers) width height;
        match processed with
        | Some processed =>
            mret (inl processed,
                  Renderer.mk (Renderer.offscreenCanvas this)
                    (Renderer.compositor this)
                    (limit_and_set (Renderer.processedCache this)
                                   cacheKey processed))
        | None => mret (inr image, this)
        end
    end.

Definition clearCache (this : Renderer.t) : Renderer.t :=
  Renderer.mk (Renderer.offscreenCanvas this) (Renderer.compositor this)
              JSMap.empty.

Definition invalidateCache (this : Renderer.t) (imageUrl : string)
  : Renderer.t :=
  Renderer.mk (Renderer.offscreenCanvas this) (Renderer.compositor this)
    (List.filter (fun entry => negb (String.prefix imageUrl (fst entry)))
                 (Renderer.processedCache this)).

(** A JS array of layers holds references to objects.  [Heap] maps the
    address of each live layer object to its value; [read_layers] is what
    code that walks the array sees. *)
Definition Heap : Type := gmap nat LayerObject.t.

Definition read_layers (heap : Heap) (array : list nat)
  : option (list LayerObject.t) :=
  mapM (fun address => heap !! address) array.

(** [getCacheKey] on an array of references. *)
Definition getCacheKey_at (heap : Heap) (imageUrl : string)
    (array : list nat) : option string :=
  getCacheKey imageUrl <$> read_layers heap array.

End useShaderRenderer.

(** ** More of store/actions/shader-actions.ts

    [generateId()] draws a random UUID; the id it returns is an argument
    here. *)

(** [images.find((img) => img.id === imageId)] *)
Definition find_image (images : list CanvasImage) (imageId : string)
  : option CanvasImage :=
  List.find (fun img => String.eqb (CanvasImage.id img) imageId) images.

(** [array.findIndex(p)], with [None] for -1. *)
Fixpoint findIndex {A} (p : A -> bool) (l : list A) : option nat :=
  match l with
  | [] => None
  | x :: l' => if p x then Some O else S <$> findIndex p l'
  end.

(** The write function of [addShaderLayerAtom]: what it returns and the
    value it sets. *)
Definition addShaderLayerAtom (images : list CanvasImage)
    (imageId : string) (shaderType : ShaderType) (newId : string)
  : option string * list CanvasImage :=
  match find_image images imageId with
  | None => (None, images)
  | Some image =>
      let newLayer :=
        createShaderLayer shaderType newId
          (Z.of_nat (length (CanvasImage.shaderLayers image))) in
      (Some (ShaderLayer.id newLayer),
       map (fun img =>
              if String.eqb (CanvasImage.id img) imageId
              then CanvasImage.set_shaderLayers img
                     (CanvasImage.shaderLayers img ++ [newLayer])
              else img)
           images)
  end.

(** [{ ...layer, enabled: !layer.enabled }] *)
Definition toggle_enabled (layer : ShaderLayer) : ShaderLayer :=
  ShaderLayer.mk (ShaderLayer.id layer) (negb (ShaderLayer.enabled layer))
                 (ShaderLayer.order layer) (ShaderLayer.properties layer).

Definition toggleShaderLayerAtom (images : list CanvasImage)
    (imageId layerId : string) : list CanvasImage :=
  map (fun img =>
         if negb (String.eqb (CanvasImage.id img) imageId) then img
         else
           CanvasImage.set_shaderLayers img
             (map (fun layer =>
                     if String.eqb (ShaderLayer.id layer) layerId
                     then toggle_enabled layer
                     else layer)
                  (CanvasImage.shaderLayers img)))
      images.

(** [payload.newOrder] is an index, hence an integer. *)
Definition reorderShaderLayerAtom (images : list CanvasImage)
    (imageId layerId : string) (newOrder : Z) : list CanvasImage :=
  match find_image images imageId with
  | None => images
  | Some image =>
      let layers := CanvasImage.shaderLayers image in
      match findIndex (fun l => String.eqb (ShaderLayer.id l) layerId)
                      layers with
      | None => images
      | Some currentIndex =>
          match layers !! currentIndex with
          | None => images
          | Some layer =>
              (* layers.splice(currentIndex, 1) *)
              let layers :=
                take currentIndex layers ++ drop (S currentIndex) layers in
              let newIndex :=
                Z.to_nat
                  (Z.max 0 (Z.min newOrder (Z.of_nat (length layers)))) in
              (* layers.splice(newIndex, 0, layer) *)
              let layers :=
                take newIndex layers ++ layer :: drop newIndex layers in
              let reorderedLayers :=
                imap (fun index l => set_order l index) layers in
              map (fun img =>
                     if String.eqb (CanvasImage.id img) imageId
                     then CanvasImage.set_shaderLayers img reorderedLayers
                     else img)
                  images
          end
      end
  end.

Definition clearShaderLayersAtom (images : list CanvasImage)
    (imageId : string) : list CanvasImage :=
  map (fun img =>
         if String.eqb (CanvasImage.id img) imageId
         then CanvasImage.set_shaderLayers img []
         else img)
      images.

Definition duplicateShaderLayerAtom (images : list CanvasImage)
    (imageId layerId newId : string) : option string * list CanvasImage :=
  match find_image images imageId with
  | None => (None, images)
  | Some image =>
      match List.find (fun l => String.eqb (ShaderLayer.id l) layerId)
                      (CanvasImage.shaderLayers image) with
      | None => (None, images)
      | Some layer =>
          let newLayer :=
            ShaderLayer.mk newId (ShaderLayer.enabled layer)
              (Z.of_nat (length (CanvasImage.shaderLayers image)))
              (ShaderLayer.properties layer) in
          (Some (ShaderLayer.id newLayer),
           map (fun img =>
                  if String.eqb (CanvasImage.id img) imageId
                  then CanvasImage.set_shaderLayers img
                         (CanvasImage.shaderLayers img ++ [newLayer])
                  else img)
               images)
      end
  end.

(** The order fields are 0, 1, ..., n-1 along the list. *)
Definition contiguous (layers : list ShaderLayer) : Prop :=
  map ShaderLayer.order layers = map Z.of_nat (seq 0 (length layers)).

(** [a] may come before [b] in the list of active layers. *)
Definition le_order (a b : ShaderLayer) : Prop :=
  ShaderLayer.order a <= ShaderLayer.order b.

(** The layers of order [k], in list order. *)
Definition of_order (k : Z) (layers : list ShaderLayer) : list ShaderLayer :=
  List.filter (fun l => ShaderLayer.order l =? k) layers.

(** ** What the statements below speak of *)

(** What the fingerprint reads of a layer. *)
Definition fingerprint_entry (l : ShaderLayer) : string * ShaderProperties :=
  (ShaderLayer.id l, ShaderLayer.properties l).

(** What the fingerprint reads of a layer object: the id and the
    properties object, that is its members and their order. *)
Definition object_entry (l : LayerObject.t)
  : string * list string * ShaderProperties :=
  (LayerObject.id l, LayerObject.keys l, LayerObject.properties l).

(** What a layer is apart from its position. *)
Definition layer_content (l : ShaderLayer)
  : string * bool * ShaderProperties :=
  (ShaderLayer.id l, ShaderLayer.enabled l, ShaderLayer.properties l).

(** The types whose case in [hasEffect] is false at [SHADER_DEFAULTS]. *)
Definition neutral_at_defaults (t : ShaderType) : bool :=
  match t with
  | Brightness | Contrast | Exposure | Saturation | Invert
  | ColorCorrection | Blur | HueRotate => true
  | _ => false
  end.

(** The types that fall to the [default] case of [hasEffect]. *)
Definition always_active (t : ShaderType) : bool :=
  match t with
  | FilmGrain | Duotone | Pixelate | Threshold | Dither | Vignette
  | ChromaticAberration | Lut | Halation | Bloom => true
  | _ => false
  end.

(** [getProcessedImage] on a run of cache misses whose processing
    succeeds: the entries stored, in order. *)
Definition insert_all (cache : JSMap.t HTMLCanvasElement)
    (entries : list (string * HTMLCanvasElement))
  : JSMap.t HTMLCanvasElement :=
  fold_left (fun cache entry => limit_and_set cache (fst entry) (snd entry))
            entries cache.

(** ** Statements about runs *)

(** Every call that [m] issues, from any driver state, satisfies [Q]. *)
Definition emits {A} (Q : gl.Call -> Prop) (m : GL A) : Prop :=
  forall d, Forall Q (calls (m d)).


(** The result of [m] satisfies [R], whatever the driver state. *)
Definition yields {A} (R : A -> Prop) (m : GL A) : Prop :=
  forall d, R (result (m d)).





(** The framebuffers bound, the textures bound and the values written to
    [u_flipY] by a sequence of calls, in order. *)
Definition framebuffer_binds (t : list gl.Call)
  : list (option WebGLFramebuffer) :=
  omap (fun c => match c with gl.bindFramebuffer f => Some f | _ => None end)
       t.

Definition texture_binds (t : list gl.Call) : list (option WebGLTexture) :=
  omap (fun c => match c with gl.bindTexture x => Some x | _ => None end) t.

Definition flipY_writes (t : list gl.Call) : list Z :=
  omap (fun c => match c with
                 | gl.uniform1i l v =>
                     if String.eqb (loc_name l) "u_flipY" then Some v
                     else None
                 | _ => None
                 end) t.

(** The calls of each iteration of the loop of [render], one list per
    pass index from [i] on. *)
Fixpoint passes_log (n i : nat) (remaining : list ShaderLayer)
    (this : ShaderCompositor.t) (inputTexture : option WebGLTexture)
    (d : Driver) : list (list gl.Call) :=
  match remaining with
  | [] => []
  | layer :: remaining' =>
      let '(this', inputTexture', t, d') :=
        ShaderCompositor.renderPass n i layer this inputTexture d in
      t :: passes_log n (S i) remaining' this' inputTexture' d'
  end.

(** The passes of one [render], one list of calls per pass index; empty
    when the source texture is missing or no layer is active. *)
Definition render_log (this : ShaderCompositor.t) (image : HTMLImageElement)
    (layers : list ShaderLayer) (d : Driver) : list (list gl.Call) :=
  let g := TextureCache.getTexture (ShaderCompositor.textureCache this)
             (src image) image d in
  let this := ShaderCompositor.set_textureCache this (snd (result g)) in
  match fst (result g) with
  | None => []
  | Some imageTexture =>
      let activeLayers := sort_by_order (List.filter hasEffect layers) in
      let s := PingPongBuffer.resize (ShaderCompositor.pingPong this)
                 (ShaderCompositor.width this) (ShaderCompositor.height this)
                 (driver g) in
      let this := ShaderCompositor.set_pingPong this
                    (PingPongBuffer.reset (snd (result s))) in
      passes_log (length activeLayers) 0 activeLayers this
                 (Some imageTexture) (driver s)
  end.

(** The objects created and the objects deleted by a sequence of calls,
    kind by kind, in order. *)
Definition created_shaders (t : list gl.Call) : list WebGLShader :=
  omap (fun c => match c with gl.createShader _ r => r | _ => None end) t.

Definition deleted_shaders (t : list gl.Call) : list WebGLShader :=
  omap (fun c => match c with gl.deleteShader s => Some s | _ => None end) t.

Definition created_programs (t : list gl.Call) : list WebGLProgram :=
  omap (fun c => match c with gl.createProgram r => r | _ => None end) t.

Definition deleted_programs (t : list gl.Call) : list WebGLProgram :=
  omap (fun c => match c with gl.deleteProgram p => Some p | _ => None end) t.

Definition created_textures (t : list gl.Call) : list WebGLTexture :=
  omap (fun c => match c with gl.createTexture r => r | _ => None end) t.

Definition deleted_textures (t : list gl.Call) : list WebGLTexture :=
  omap (fun c => match c with gl.deleteTexture x => Some x | _ => None end) t.

Definition created_framebuffers (t : list gl.Call)
  : list WebGLFramebuffer :=
  omap (fun c => match c with gl.createFramebuffer r => r | _ => None end) t.

Definition deleted_framebuffers (t : list gl.Call)
  : list WebGLFramebuffer :=
  omap (fun c => match c with gl.deleteFramebuffer f => Some f | _ => None end)
       t.

(** [c] neither creates nor deletes a framebuffer or attaches a texture to
    one. *)
Definition keeps_framebuffers (c : gl.Call) : Prop :=
  match c with
  | gl.createFramebuffer _
  | gl.framebufferTexture2D _
  | gl.deleteFramebuffer _ => False
  | _ => True
  end.

(** The compositor and its pair agree on the output size. *)
Definition synced (this : ShaderCompositor.t) : Prop :=
  PingPongBuffer.width (ShaderCompositor.pingPong this)
  = ShaderCompositor.width this
  /\ PingPongBuffer.height (ShaderCompositor.pingPong this)
     = ShaderCompositor.height this.

(** [this'] has every cache entry of [this], the same quad, the same size
    and the same framebuffers. *)
Definition preserves (this this' : ShaderCompositor.t) : Prop :=
  (forall key p,
     JSMap.get (ShaderProgramManager.programs
                  (ShaderCompositor.programManager this)) key = Some p ->
     JSMap.get (ShaderProgramManager.programs
                  (ShaderCompositor.programManager this')) key = Some p)
  /\ (forall url x,
        JSMap.get (TextureCache.textures
                     (ShaderCompositor.textureCache this)) url = Some x ->
        JSMap.get (TextureCache.textures
                     (ShaderCompositor.textureCache this')) url = Some x)
  /\ ShaderCompositor.quadRenderer this' = ShaderCompositor.quadRenderer this
  /\ ShaderCompositor.width this' = ShaderCompositor.width this
  /\ ShaderCompositor.height this' = ShaderCompositor.height this
  /\ PingPongBuffer.framebuffers (ShaderCompositor.pingPong this')
     = PingPongBuffer.framebuffers (ShaderCompositor.pingPong this)
  /\ PingPongBuffer.width (ShaderCompositor.pingPong this')
     = PingPongBuffer.width (ShaderCompositor.pingPong this)
  /\ PingPongBuffer.height (ShaderCompositor.pingPong this')
     = PingPongBuffer.height (ShaderCompositor.pingPong this).

(** The processed-image cache as [getProcessedImage] keeps it. *)
Definition cache_ok (cache : JSMap.t HTMLCanvasElement) : Prop :=
  NoDup (JSMap.keys cache)
  /\ Forall (fun k => truthy k = true) (JSMap.keys cache)
  /\ (JSMap.size cache <= 51)%nat.

(** [c] is not a write to [u_flipY]. *)
Definition not_flipY (c : gl.Call) : Prop :=
  match c with
  | gl.uniform1i l _ => loc_name l <> "u_flipY"
  | _ => True
  end.




(** ** Scenarios to run

    A driver that grants every request and whose programs declare every
    uniform, with a script for the requests to refuse; a compositor sized
    100 x 100; some layers, an image of the store and 51 fingerprints. *)

Definition scripted (script : list bool) : Driver :=
  {| answers := script; next_handle := 1%nat;
     uniform_active := fun _ _ => true;
     attrib_location := fun _ _ => 0 |}.

Definition photo : HTMLImageElement :=
  {| src := "photo.png"; complete := true |}.

Definition brightness_02 : ShaderLayer :=
  ShaderLayer.mk "a" true 0 (BrightnessProps 0.2%float).

Definition invert_1 : ShaderLayer :=
  ShaderLayer.mk "b" true 1 (InvertProps 1%float).

Definition blur_off : ShaderLayer :=
  ShaderLayer.mk "c" false 2 (BlurProps 5%float 8%float).

(** [new ShaderCompositor(gl)] then [resize(100, 100)], every request
    granted; the driver afterwards continues with [script]. *)
Definition compositor_100 : ShaderCompositor.t :=
  result ((c ← ShaderCompositor.new; ShaderCompositor.resize c 100 100)
            (scripted [])).

Definition driver_100 (script : list bool) : Driver :=
  let d := driver ((c ← ShaderCompositor.new; ShaderCompositor.resize c 100 100)
                     (scripted [])) in
  {| answers := script; next_handle := next_handle d;
     uniform_active := uniform_active d;
     attrib_location := attrib_location d |}.

(** An image of the store with the given layers. *)
Definition image_with (id : string) (layers : list ShaderLayer)
  : CanvasImage :=
  CanvasImage.mk id "photo.png" (0, 0)%float (200, 150)%float
    (200, 150)%float layers 0 false true.

(** 51 distinct fingerprints of one image: layer ids ["0"], ["1"], ... *)
Definition fingerprint (n : nat) : string :=
  ("photo.png::" ++ String (ascii_of_nat (48 + n)) EmptyString)%string.

Definition fifty_one_entries : list (string * HTMLCanvasElement) :=
  map (fun n => (fingerprint n, HTMLCanvasElement.mk n 100 100)) (seq 0 51).

(** * Properties *)

(** ** JavaScript maps *)

Section JSMapFacts.
Context {V : Type}.
Implicit Types (m : JSMap.t V) (k : string) (v : V).

Lemma JSMap_get_set_eq m k v : JSMap.get (JSMap.set m k v) k = Some v.
Proof.
  induction m as [|[k' v'] m IH]; simpl.
  - now rewrite String.eqb_refl.
  - destruct (String.eqb k' k) eqn:E; simpl; rewrite E; auto.
Qed.

Lemma JSMap_get_set_ne m k k' v :
  k <> k' -> JSMap.get (JSMap.set m k v) k' = JSMap.get m k'.
Proof.
  intros Hne. induction m as [|[k0 v0] m IH]; simpl.
  - apply String.eqb_neq in Hne. now rewrite Hne.
  - destruct (String.eqb k0 k) eqn:E; simpl.
    + apply String.eqb_eq in E. subst k0.
      apply String.eqb_neq in Hne. now rewrite Hne.
    + now rewrite IH.
Qed.

Lemma JSMap_get_None m k : k ∉ JSMap.keys m -> JSMap.get m k = None.
Proof.
  induction m as [|[k' v'] m IH]; simpl; intros Hk; [reflexivity|].
  apply not_elem_of_cons in Hk as [Hne Hk].
  destruct (String.eqb k' k) eqn:E.
  - apply String.eqb_eq in E. congruence.
  - auto.
Qed.

Lemma JSMap_set_fresh m k v :
  k ∉ JSMap.keys m -> JSMap.set m k v = m ++ [(k, v)].
Proof.
  induction m as [|[k' v'] m IH]; simpl; intros Hk; [reflexivity|].
  apply not_elem_of_cons in Hk as [Hne Hk].
  destruct (String.eqb k' k) eqn:E.
  - apply String.eqb_eq in E. congruence.
  - now rewrite IH.
Qed.

Lemma JSMap_get_elem m k v :
  NoDup (JSMap.keys m) -> (k, v) ∈ m -> JSMap.get m k = Some v.
Proof.
  induction m as [|[k' v'] m IH]; simpl; intros Hnd Hin.
  - inversion Hin.
  - apply NoDup_cons in Hnd as [Hk' Hnd].
    apply elem_of_cons in Hin as [Heq | Hin].
    + inversion Heq; subst. now rewrite String.eqb_refl.
    + destruct (String.eqb k' k) eqn:E.
      * apply String.eqb_eq in E. subst k'. exfalso. apply Hk'.
        apply list_elem_of_fmap. now exists (k, v).
      * auto.
Qed.


End JSMapFacts.

(** ** Runs against the driver *)

Lemma run_bind {A B} (m : GL A) (f : A -> GL B) d :
  (m ≫= f) d
  = (result (f (result (m d)) (driver (m d))),
     calls (m d) ++ calls (f (result (m d)) (driver (m d))),
     driver (f (result (m d)) (driver (m d)))).
Proof.
  unfold mbind, GL_bind, result, calls, driver.
  destruct (m d) as [[a t1] d1]. simpl.
  destruct (f a d1) as [[b t2] d2]. reflexivity.
Qed.

Lemma result_bind {A B} (m : GL A) (f : A -> GL B) d :
  result ((m ≫= f) d) = result (f (result (m d)) (driver (m d))).
Proof. now rewrite run_bind. Qed.

Lemma calls_bind {A B} (m : GL A) (f : A -> GL B) d :
  calls ((m ≫= f) d)
  = calls (m d) ++ calls (f (result (m d)) (driver (m d))).
Proof. now rewrite run_bind. Qed.


Section Emits.
Context (Q : gl.Call -> Prop).

Lemma emits_ret {A} (a : A) : emits Q (mret a).
Proof. intros d. constructor. Qed.

Lemma emits_issue c : Q c -> emits Q (issue c).
Proof. intros Hc d. simpl. repeat constructor. exact Hc. Qed.

Lemma emits_granted : emits Q granted.
Proof. intros d. unfold granted. destruct (answers d); constructor. Qed.

Lemma emits_fresh : emits Q fresh.
Proof. intros d. constructor. Qed.

Lemma emits_getUniformLocation p name : emits Q (getUniformLocation p name).
Proof. intros d. constructor. Qed.

Lemma emits_getAttribLocation p name : emits Q (getAttribLocation p name).
Proof. intros d. constructor. Qed.

Lemma emits_bind {A B} (m : GL A) (f : A -> GL B) :
  emits Q m -> (forall d, emits Q (f (result (m d)))) -> emits Q (m ≫= f).
Proof.
  intros Hm Hf d. rewrite calls_bind. apply Forall_app. split.
  - apply Hm.
  - apply Hf.
Qed.

End Emits.

Create HintDb gl.

#[local] Hint Unfold create compileShader createProgram
  createTextureFromImage createEmptyTexture bindTexture createFramebuffer
  deleteFramebuffer createQuadBuffer setupQuadAttributes drawQuad clearCanvas
  if_loc QuadRenderer.setupForProgram QuadRenderer.draw
  ShaderProgramManager.getProgram TextureCache.getTexture : gl.

(** Decompose a goal [emits Q m] along the structure of [m]; what remains
    are the goals [Q c] that are not immediate. *)
Ltac emits_step :=
  match goal with
  | |- context [result (getUniformLocation ?p ?name ?d)] =>
      change (result (getUniformLocation p name d))
        with (if uniform_active d p name
              then Some {| loc_program := p; loc_name := name |}
              else None);
      destruct (uniform_active d p name)
  | |- emits _ (mret _) => apply emits_ret
  | |- emits _ (issue _) => apply emits_issue
  | |- emits _ granted => apply emits_granted
  | |- emits _ fresh => apply emits_fresh
  | |- emits _ (getUniformLocation _ _) => apply emits_getUniformLocation
  | |- emits _ (getAttribLocation _ _) => apply emits_getAttribLocation
  | |- emits _ (mbind _ _) => apply emits_bind; [ | intros ?d; cbn beta ]
  | |- emits _ (match ?x with _ => _ end) => destruct x
  | |- emits _ _ => progress autounfold with gl
  end.

Ltac emits_auto :=
  repeat emits_step;
  try solve [ exact I | simpl; intros; congruence | simpl; auto ].

Section Issued.
Context (c : gl.Call).




End Issued.

Lemma yields_ret {A} (R : A -> Prop) a : R a -> yields R (mret a).
Proof. intros H d. exact H. Qed.

Lemma yields_bind {A B} (R : B -> Prop) (m : GL A) (f : A -> GL B) :
  (forall a, yields R (f a)) -> yields R (m ≫= f).
Proof. intros Hf d. rewrite result_bind. apply Hf. Qed.


Ltac yields_auto :=
  repeat first [ apply yields_ret | apply yields_bind; intros ? ].

(** ** The pass loop *)









Lemma dispose_run (this : PingPongBuffer.t) d :
  let deleted (fb : option Framebuffer) :=
    match fb with
    | Some fb => [gl.deleteFramebuffer (Framebuffer.framebuffer fb);
                  gl.deleteTexture (Framebuffer.texture fb)]
    | None => []
    end in
  PingPongBuffer.dispose this d
  = (PingPongBuffer.mk (None, None) (PingPongBuffer.currentIndex this)
       (PingPongBuffer.width this) (PingPongBuffer.height this),
     deleted (fst (PingPongBuffer.framebuffers this))
     ++ deleted (snd (PingPongBuffer.framebuffers this)),
     d).
Proof.
  unfold PingPongBuffer.dispose.
  destruct (PingPongBuffer.framebuffers this) as [[fb0|] [fb1|]];
    reflexivity.
Qed.

Lemma resize_run (this : PingPongBuffer.t) width height d :
  (PingPongBuffer.width this =? width)
  && (PingPongBuffer.height this =? height) = false ->
  let x := PingPongBuffer.dispose
             (PingPongBuffer.mk (PingPongBuffer.framebuffers this)
                (PingPongBuffer.currentIndex this) width height) d in
  let f0 := createFramebuffer width height d in
  let f1 := createFramebuffer width height (driver f0) in
  PingPongBuffer.resize this width height d
  = ((match result f0, result f1 with
      | Some _, Some _ => true
      | _, _ => false
      end,
      PingPongBuffer.mk (result f0, result f1)
        (PingPongBuffer.currentIndex this) width height),
     calls x ++ calls f0 ++ calls f1,
     driver f1).
Proof.
  intros Hdims x f0 f1. unfold PingPongBuffer.resize. rewrite Hdims.
  subst x f0 f1. cbv [mbind GL_bind]. rewrite dispose_run.
  unfold result, calls, driver.
  destruct (createFramebuffer width height d) as [[r0 t0] d0]. simpl.
  destruct (createFramebuffer width height d0) as [[r1 t1] d1]. simpl.
  rewrite app_nil_r. destruct r0, r1; reflexivity.
Qed.



Lemma renderPass_run n i layer this input d :
  let g := ShaderProgramManager.getProgram
             (ShaderCompositor.programManager this)
             (type_name (ShaderLayer.type layer)) quadVertexShader
             (getFragmentShader (ShaderLayer.type layer)) d in
  let this' := ShaderCompositor.set_programManager this (snd (result g)) in
  ShaderCompositor.renderPass n i layer this input d
  = match fst (result g) with
    | None => (this', input, calls g, driver g)
    | Some program =>
        let r := ShaderCompositor.drawPass n i layer this' program input
                   (driver g) in
        (result r, calls g ++ calls r, driver r)
    end.
Proof.
  intros g this'. unfold ShaderCompositor.renderPass. rewrite run_bind.
  fold g. subst this'. destruct (result g) as [[program|] pm]; simpl.
  - reflexivity.
  - now rewrite app_nil_r.
Qed.




Lemma drawPass_result n i layer this program input :
  yields (fun r =>
            r = if (i =? n - 1)%nat then (this, input)
                else
                  let pp := PingPongBuffer.swap
                              (ShaderCompositor.pingPong this) in
                  (ShaderCompositor.set_pingPong this pp,
                   PingPongBuffer.getReadTexture pp))
         (ShaderCompositor.drawPass n i layer this program input).
Proof.
  unfold ShaderCompositor.drawPass.
  destruct (i =? n - 1)%nat; simpl negb; cbv zeta; yields_auto; reflexivity.
Qed.



(** ** The writes to [u_flipY] *)





















Lemma getTexture_not_flipY this url image :
  emits not_flipY (TextureCache.getTexture this url image).
Proof. emits_auto. Qed.










Example two_passes_flipY :
  map flipY_writes
      (render_log compositor_100 photo [invert_1; blur_off; brightness_02]
         (driver_100 []))
  = [[1]; [0]].
Proof. vm_compute. reflexivity. Qed.


(** ** The passthrough path *)

Lemma renderPassthrough_run this texture d :
  let g := ShaderProgramManager.getProgram
             (ShaderCompositor.programManager this) "passthrough"
             quadVertexShader passthroughFragmentShader d in
  let this' := ShaderCompositor.set_programManager this (snd (result g)) in
  ShaderCompositor.renderPassthrough this texture d
  = match fst (result g) with
    | None => (this', calls g, driver g)
    | Some program =>
        let r := ShaderCompositor.drawPassthrough this' program texture
                   (driver g) in
        (result r, calls g ++ calls r, driver r)
    end.
Proof.
  intros g this'. unfold ShaderCompositor.renderPassthrough.
  rewrite run_bind. fold g. subst this'.
  destruct (result g) as [[program|] pm]; simpl.
  - reflexivity.
  - now rewrite app_nil_r.
Qed.








Lemma drawPassthrough_result this program texture :
  yields (fun r => r = this)
         (ShaderCompositor.drawPassthrough this program texture).
Proof.
  unfold ShaderCompositor.drawPassthrough. yields_auto. reflexivity.
Qed.







Example passthrough_draws_source_on_screen :
  let r := ShaderCompositor.render compositor_100 photo
             [blur_off; createShaderLayer Brightness "d" 3]
             (driver_100 []) in
  framebuffer_binds (calls r) = [None]
  /\ texture_binds (calls r) = [Some 7%nat; Some 7%nat]
  /\ flipY_writes (calls r) = [1]
  /\ JSMap.get (TextureCache.textures
                  (ShaderCompositor.textureCache (result r))) "photo.png"
     = Some 7%nat.
Proof. vm_compute. repeat split; reflexivity. Qed.

(** ** The ping-pong pair *)

Ltac yields_step :=
  match goal with
  | |- yields _ (mret _) => apply yields_ret
  | |- yields _ (mbind _ _) => apply yields_bind; intros ?
  | |- yields _ (match ?x with _ => _ end) => destruct x
  end.

Lemma createFramebuffer_size width height :
  yields (fun r => forall fb, r = Some fb ->
                     Framebuffer.width fb = width
                     /\ Framebuffer.height fb = height)
         (createFramebuffer width height).
Proof.
  unfold createFramebuffer. repeat yields_step.
  all: intros fb [= <-] || intros fb [=]; auto.
Qed.

(** C6 (amended): a [resize] to new dimensions is not atomic.  It records
    the new width and height and deletes the old framebuffers before it
    creates the new ones; afterwards each slot holds a framebuffer of the
    new size or [null], and the result is [false] exactly when a slot is
    [null]. *)
Theorem C6_resize_replaces_without_rollback
    (this : PingPongBuffer.t) width height d :
  (PingPongBuffer.width this =? width)
  && (PingPongBuffer.height this =? height) = false ->
  let r := PingPongBuffer.resize this width height d in
  let this' := snd (result r) in
  PingPongBuffer.width this' = width
  /\ PingPongBuffer.height this' = height
  /\ PingPongBuffer.currentIndex this' = PingPongBuffer.currentIndex this
  /\ (forall fb,
        fst (PingPongBuffer.framebuffers this) = Some fb
        \/ snd (PingPongBuffer.framebuffers this) = Some fb ->
        gl.deleteFramebuffer (Framebuffer.framebuffer fb) ∈ calls r
        /\ gl.deleteTexture (Framebuffer.texture fb) ∈ calls r)
  /\ (forall fb,
        fst (PingPongBuffer.framebuffers this') = Some fb
        \/ snd (PingPongBuffer.framebuffers this') = Some fb ->
        Framebuffer.width fb = width /\ Framebuffer.height fb = height)
  /\ (fst (result r) = false
      <-> fst (PingPongBuffer.framebuffers this') = None
          \/ snd (PingPongBuffer.framebuffers this') = None).
Proof.
  intros Hdims r this'. subst this' r.
  rewrite (resize_run this width height d Hdims). cbv zeta.
  rewrite dispose_run. unfold result at 1 2 3 4 5 6, calls at 1 2 3.
  simpl fst. simpl snd.
  repeat split; try reflexivity.
  - destruct H as [H | H]; rewrite H; set_solver.
  - destruct H as [H | H]; rewrite H; set_solver.
  - destruct H as [H | H].
    + eapply (createFramebuffer_size width height d); exact H.
    + eapply (createFramebuffer_size width height
                (driver (createFramebuffer width height d))); exact H.
  - destruct H as [H | H].
    + eapply (createFramebuffer_size width height d); exact H.
    + eapply (createFramebuffer_size width height
                (driver (createFramebuffer width height d))); exact H.
  - destruct (result (createFramebuffer width height d));
      destruct (result (createFramebuffer width height _));
      simpl; auto; discriminate.
  - destruct (result (createFramebuffer width height d));
      destruct (result (createFramebuffer width height _));
      simpl; intros [H | H]; auto; discriminate.
Qed.

(** C6 at work: the pair of the 100 x 100 compositor resized to 200 x 200
    while the driver refuses the second framebuffer. *)
Lemma C6_resize_200_records_dimensions :
  let r := PingPongBuffer.resize (ShaderCompositor.pingPong compositor_100)
             200 200 (driver_100 [true; true; true; false]) in
  PingPongBuffer.width (snd (result r)) = 200
  /\ PingPongBuffer.height (snd (result r)) = 200.
Proof.
  destruct (C6_resize_replaces_without_rollback
              (ShaderCompositor.pingPong compositor_100) 200 200
              (driver_100 [true; true; true; false]) eq_refl)
    as (Hw & Hh & _).
  split; [exact Hw | exact Hh].
Defined.

(** C6 as stated fails: the first framebuffer is created and the second is
    refused.  [resize] reports failure, but the old pair is gone and only
    one slot holds a new framebuffer. *)
Lemma C6_failed_resize_is_partial :
  let old := ShaderCompositor.pingPong compositor_100 in
  let r := PingPongBuffer.resize old 200 200
             (driver_100 [true; true; true; false]) in
  let new := snd (result r) in
  fst (result r) = false
  /\ PingPongBuffer.framebuffers old
     = (Some (Framebuffer.mk 3%nat 4%nat 100 100),
        Some (Framebuffer.mk 5%nat 6%nat 100 100))
  /\ PingPongBuffer.framebuffers new
     = (Some (Framebuffer.mk 7%nat 8%nat 200 200), None)
  /\ new <> old
  /\ ~ (exists a b, PingPongBuffer.framebuffers new = (Some a, Some b))
  /\ calls r
     = [gl.deleteFramebuffer 3%nat; gl.deleteTexture 4%nat;
        gl.deleteFramebuffer 5%nat; gl.deleteTexture 6%nat;
        gl.createFramebuffer (Some 7%nat); gl.createTexture (Some 8%nat);
        gl.bindTexture (Some 8%nat);
        gl.texParameteri TEXTURE_WRAP_S CLAMP_TO_EDGE;
        gl.texParameteri TEXTURE_WRAP_T CLAMP_TO_EDGE;
        gl.texParameteri TEXTURE_MIN_FILTER LINEAR;
        gl.texParameteri TEXTURE_MAG_FILTER LINEAR;
        gl.texImage2D_empty 200 200;
        gl.bindFramebuffer (Some 7%nat); gl.framebufferTexture2D 8%nat;
        gl.bindFramebuffer None; gl.createFramebuffer None].
Proof.
  vm_compute. repeat split; try reflexivity.
  - discriminate.
  - intros (a & b & H). discriminate H.
Qed.

(** C10 (amended): [resize] records the new dimensions before it creates
    the framebuffers, so after a failed [resize] a second call with the
    same dimensions returns [true] without issuing any call and without
    changing the pair.  The pair then has a [null] slot, so one at least of
    [getReadTexture] and [getWriteFramebuffer] returns [null]; both do when
    both creations failed. *)
Theorem C10_failed_resize_is_not_retried
    (this : PingPongBuffer.t) width height d d' :
  (PingPongBuffer.width this =? width)
  && (PingPongBuffer.height this =? height) = false ->
  fst (result (PingPongBuffer.resize this width height d)) = false ->
  let this' := snd (result (PingPongBuffer.resize this width height d)) in
  PingPongBuffer.width this' = width
  /\ PingPongBuffer.height this' = height
  /\ PingPongBuffer.resize this' width height d' = (true, this', [], d')
  /\ (PingPongBuffer.getReadTexture this' = None
      \/ PingPongBuffer.getWriteFramebuffer this' = None)
  /\ (PingPongBuffer.framebuffers this' = (None, None) ->
      PingPongBuffer.getReadTexture this' = None
      /\ PingPongBuffer.getWriteFramebuffer this' = None).
Proof.
  intros Hdims. rewrite (resize_run this width height d Hdims). cbv zeta.
  set (f0 := result (createFramebuffer width height d)).
  set (f1 := result (createFramebuffer width height _)).
  unfold result. simpl fst. simpl snd.
  intros Hfail.
  split; [reflexivity|]. split; [reflexivity|]. split.
  { unfold PingPongBuffer.resize. simpl. now rewrite !Z.eqb_refl. }
  unfold PingPongBuffer.getReadTexture, PingPongBuffer.getWriteFramebuffer.
  cbn [PingPongBuffer.framebuffers PingPongBuffer.currentIndex].
  split.
  - destruct (PingPongBuffer.currentIndex this) as [|[|k]].
    + destruct f0, f1; simpl in *; auto; discriminate.
    + destruct f0, f1; simpl in *; auto; discriminate.
    + left. reflexivity.
  - intros H. rewrite H. split.
    + now destruct (PingPongBuffer.currentIndex this) as [|[|k]].
    + generalize ((PingPongBuffer.currentIndex this + 1) mod 2)%nat.
      now intros [|[|k]].
Qed.

(** C10 at work: both framebuffers refused, then the same size asked
    again from a driver that grants everything. *)
Lemma C10_second_resize_creates_nothing :
  let this' := snd (result (PingPongBuffer.resize PingPongBuffer.new 100 100
                              (scripted [false; false]))) in
  PingPongBuffer.resize this' 100 100 (scripted [])
  = (true, this', [], scripted []).
Proof.
  destruct (C10_failed_resize_is_not_retried PingPongBuffer.new 100 100
              (scripted [false; false]) (scripted []) eq_refl eq_refl)
    as (_ & _ & Hretry & _).
  exact Hretry.
Defined.

(** C10 as stated fails: when only the second framebuffer is refused, the
    failed pair still has a read texture. *)
Lemma C10_partial_failure_keeps_read_texture :
  let r := PingPongBuffer.resize PingPongBuffer.new 100 100
             (scripted [true; true; true; false]) in
  let this' := snd (result r) in
  fst (result r) = false
  /\ fst (result (PingPongBuffer.resize this' 100 100 (driver r))) = true
  /\ calls (PingPongBuffer.resize this' 100 100 (driver r)) = []
  /\ PingPongBuffer.getReadTexture this' = Some 2%nat
  /\ PingPongBuffer.getReadTexture this' <> None
  /\ PingPongBuffer.getWriteFramebuffer this' = None.
Proof. vm_compute. repeat split; try reflexivity. discriminate. Qed.

(** ** The program cache *)

Lemma create_calls call d :
  calls (create call d) = [call (result (create call d))].
Proof.
  cbv [create granted fresh calls result mbind GL_bind mret GL_ret issue].
  destruct (answers d) as [|[] rest]; reflexivity.
Qed.


Lemma getProgram_miss (this : ShaderProgramManager.t) key vs fs d :
  JSMap.has (ShaderProgramManager.programs this) key = false ->
  let c := createProgram vs fs d in
  ShaderProgramManager.getProgram this key vs fs d
  = (match result c with
     | Some p =>
         (Some p,
          ShaderProgramManager.mk
            (JSMap.set (ShaderProgramManager.programs this) key p))
     | None => (None, this)
     end, calls c, driver c).
Proof.
  intros Hmiss c. unfold ShaderProgramManager.getProgram. rewrite Hmiss.
  rewrite run_bind. fold c.
  destruct (result c); simpl; now rewrite app_nil_r.
Qed.

Lemma getProgram_hit (this : ShaderProgramManager.t) key vs fs d :
  JSMap.has (ShaderProgramManager.programs this) key = true ->
  ShaderProgramManager.getProgram this key vs fs d
  = (JSMap.get (ShaderProgramManager.programs this) key, this, [], d).
Proof.
  intros Hhit. unfold ShaderProgramManager.getProgram. now rewrite Hhit.
Qed.




(** ** Active layers *)

Lemma insert_by_order_elem a x sorted :
  x ∈ insert_by_order a sorted <-> x = a \/ x ∈ sorted.
Proof.
  induction sorted as [|b rest IH]; simpl.
  - rewrite list_elem_of_singleton.
    split; [auto | intros [H | H]; [exact H | inversion H]].
  - destruct (ShaderLayer.order a <=? ShaderLayer.order b).
    + now rewrite elem_of_cons.
    + rewrite !elem_of_cons, IH. tauto.
Qed.

Lemma sort_by_order_elem x layers : x ∈ sort_by_order layers <-> x ∈ layers.
Proof.
  induction layers as [|a layers IH]; simpl.
  - reflexivity.
  - rewrite insert_by_order_elem, elem_of_cons, IH. reflexivity.
Qed.

Lemma active_hasEffect x layers :
  x ∈ sort_by_order (List.filter hasEffect layers) -> hasEffect x = true.
Proof.
  rewrite sort_by_order_elem, list_elem_of_In, filter_In. tauto.
Qed.

Lemma hasEffect_at_neutral_defaults layer :
  ShaderLayer.properties layer = SHADER_DEFAULTS (ShaderLayer.type layer) ->
  neutral_at_defaults (ShaderLayer.type layer) = true ->
  hasEffect layer = false.
Proof.
  destruct layer as [id en order p]. unfold ShaderLayer.type. simpl.
  intros Hdef Hneutral.
  destruct p; simpl in Hneutral; try discriminate Hneutral;
    injection Hdef as ->; subst; destruct en; reflexivity.
Qed.

(** Lists of disabled layers and of layers at neutral defaults have no
    active layer. *)
Lemma no_active_layer layers :
  Forall (fun l =>
            ShaderLayer.enabled l = false
            \/ (ShaderLayer.properties l
                = SHADER_DEFAULTS (ShaderLayer.type l)
                /\ neutral_at_defaults (ShaderLayer.type l) = true))
         layers ->
  List.filter hasEffect layers = [].
Proof.
  induction 1 as [|l layers Hl _ IH]; [reflexivity|]. simpl.
  assert (Hoff : hasEffect l = false).
  { destruct Hl as [Hl | [Hdef Hneutral]].
    - unfold hasEffect. now rewrite Hl.
    - now apply hasEffect_at_neutral_defaults. }
  now rewrite Hoff.
Qed.

(** C3 (amended): a layer at the declared defaults of its type is active
    exactly when it is enabled and its type is not one of brightness,
    contrast, exposure, saturation, invert, color-correction, blur and
    hue-rotate: a layer of these eight types at its defaults is never in
    the list of active layers, whereas a blend-mode layer at its defaults
    (opacity 0.5) is active.  A layer of a type without a case in
    [hasEffect] (pixelate, dither, threshold, ...) is active whenever it is
    enabled. *)
Theorem C3_layers_at_defaults :
  (forall t id enabled order,
     hasEffect (ShaderLayer.mk id enabled order (SHADER_DEFAULTS t))
     = enabled && negb (neutral_at_defaults t))
  /\ (forall layer,
        always_active (ShaderLayer.type layer) = true ->
        hasEffect layer = ShaderLayer.enabled layer)
  /\ (forall layers layer,
        ShaderLayer.properties layer
        = SHADER_DEFAULTS (ShaderLayer.type layer) ->
        neutral_at_defaults (ShaderLayer.type layer) = true ->
        layer ∉ sort_by_order (List.filter hasEffect layers)).
Proof.
  split; [|split].
  - intros t id [] order; destruct t; reflexivity.
  - intros [id [] order p]; destruct p; simpl; intros H;
      try discriminate H; reflexivity.
  - intros layers layer Hdef Hneutral Hin.
    apply active_hasEffect in Hin.
    rewrite (hasEffect_at_neutral_defaults layer Hdef Hneutral) in Hin.
    discriminate Hin.
Qed.

(** C3 at work: the four layers the claim names, next to an active one. *)
Lemma C3_named_defaults_are_filtered_out :
  let layers := [createShaderLayer Brightness "a" 0;
                 createShaderLayer Saturation "b" 1;
                 createShaderLayer Exposure "c" 2;
                 createShaderLayer Invert "d" 3;
                 createShaderLayer Pixelate "e" 4] in
  (createShaderLayer Invert "d" 3
     ∉ sort_by_order (List.filter hasEffect layers))
  /\ hasEffect (createShaderLayer Pixelate "e" 4) = true.
Proof.
  destruct C3_layers_at_defaults as (_ & Hactive & Hout).
  split.
  - apply (Hout _ (createShaderLayer Invert "d" 3)); reflexivity.
  - apply (Hactive (createShaderLayer Pixelate "e" 4)). reflexivity.
Defined.

Example defaults_filtered :
  sort_by_order
    (List.filter hasEffect
       [createShaderLayer Brightness "a" 0;
        createShaderLayer Saturation "b" 1;
        createShaderLayer Exposure "c" 2;
        createShaderLayer Invert "d" 3;
        createShaderLayer Pixelate "e" 4])
  = [createShaderLayer Pixelate "e" 4].
Proof. vm_compute. reflexivity. Qed.

(** C3 as stated fails: blend-mode has a neutral state (opacity 0), yet a
    blend-mode layer whose properties are exactly the declared defaults is
    in the list of active layers. *)
Lemma C3_blend_mode_at_defaults_is_active :
  let layer := createShaderLayer BlendMode "m" 0 in
  ShaderLayer.properties layer = SHADER_DEFAULTS (ShaderLayer.type layer)
  /\ hasEffect layer = true
  /\ sort_by_order (List.filter hasEffect [layer]) = [layer]
  /\ hasEffect
       (ShaderLayer.mk "m" true 0
          (BlendModeProps multiply (1, 0.5, 0)%float 0%float))
     = false.
Proof. vm_compute. repeat split; reflexivity. Qed.

(** ** Removing a layer *)

Lemma filter_remove_one (layerId : string) (l1 l2 : list ShaderLayer) x :
  ShaderLayer.id x = layerId ->
  Forall (fun l => ShaderLayer.id l <> layerId) (l1 ++ l2) ->
  List.filter (fun layer => negb (String.eqb (ShaderLayer.id layer) layerId))
              (l1 ++ x :: l2)
  = l1 ++ l2.
Proof.
  intros Hx Hothers.
  assert (Hkeep : forall l, Forall (fun l => ShaderLayer.id l <> layerId) l ->
            List.filter
              (fun layer => negb (String.eqb (ShaderLayer.id layer) layerId))
              l = l).
  { induction l as [|y l IH]; intros Hl; simpl; [reflexivity|].
    apply Forall_cons in Hl as [Hy Hl].
    apply String.eqb_neq in Hy. rewrite Hy. simpl. now rewrite IH. }
  apply Forall_app in Hothers as [H1 H2].
  rewrite List.filter_app. simpl.
  apply String.eqb_eq in Hx. rewrite Hx. simpl.
  now rewrite !Hkeep.
Qed.

Lemma resequence_order (layers : list ShaderLayer) :
  map ShaderLayer.order (imap (fun index layer => set_order layer index) layers)
  = map Z.of_nat (seq 0 (length layers)).
Proof.
  change (ShaderLayer.order
          <$> imap (fun index layer => set_order layer index) layers
          = Z.of_nat <$> seq 0 (length layers)).
  rewrite <- (imap_seq_0 layers Z.of_nat), fmap_imap.
  apply imap_ext. reflexivity.
Qed.

Lemma resequence_content (layers : list ShaderLayer) :
  map layer_content (imap (fun index layer => set_order layer index) layers)
  = map layer_content layers.
Proof.
  change (layer_content
          <$> imap (fun index layer => set_order layer index) layers
          = layer_content <$> layers).
  rewrite fmap_imap, <- (imap_const layer_content layers).
  apply imap_ext. reflexivity.
Qed.

(** C8: removing the layer [x] of an image (the only layer with its id)
    stores, in place of the image, an image whose layers are the other
    layers in their relative order, unchanged but for [order], which
    becomes 0, 1, ..., n-2 along the list; nothing else of the image
    changes, and the store keeps its length. *)
Theorem C8_remove_resequences_order
    images imageId layerId (j : nat) img l1 x l2 :
  images !! j = Some img ->
  CanvasImage.id img = imageId ->
  CanvasImage.shaderLayers img = l1 ++ x :: l2 ->
  ShaderLayer.id x = layerId ->
  Forall (fun l => ShaderLayer.id l <> layerId) (l1 ++ l2) ->
  let n := length (CanvasImage.shaderLayers img) in
  exists img',
    removeShaderLayerAtom images imageId layerId !! j = Some img'
    /\ length (CanvasImage.shaderLayers img') = (n - 1)%nat
    /\ map ShaderLayer.order (CanvasImage.shaderLayers img')
       = map Z.of_nat (seq 0 (n - 1))
    /\ map layer_content (CanvasImage.shaderLayers img')
       = map layer_content (l1 ++ l2)
    /\ (CanvasImage.id img', CanvasImage.url img', CanvasImage.position img',
        CanvasImage.size img', CanvasImage.originalSize img',
        CanvasImage.zIndex img', CanvasImage.locked img',
        CanvasImage.visible img')
       = (CanvasImage.id img, CanvasImage.url img, CanvasImage.position img,
          CanvasImage.size img, CanvasImage.originalSize img,
          CanvasImage.zIndex img, CanvasImage.locked img,
          CanvasImage.visible img)
    /\ length (removeShaderLayerAtom images imageId layerId)
       = length images.
Proof.
  intros Hj Hid Hlayers Hx Hothers n. subst n.
  unfold removeShaderLayerAtom.
  change (map ?f images) with (f <$> images).
  rewrite list_lookup_fmap, Hj, length_fmap. simpl.
  apply String.eqb_eq in Hid. rewrite Hid. simpl.
  rewrite Hlayers, (filter_remove_one layerId l1 l2 x Hx Hothers).
  eexists. split; [reflexivity|].
  cbn [CanvasImage.set_shaderLayers CanvasImage.shaderLayers CanvasImage.id
       CanvasImage.url CanvasImage.position CanvasImage.size
       CanvasImage.originalSize CanvasImage.zIndex CanvasImage.locked
       CanvasImage.visible].
  assert (Hlen : (length (l1 ++ x :: l2) - 1)%nat = length (l1 ++ l2)).
  { rewrite !length_app. simpl. lia. }
  rewrite Hlen. split; [apply length_imap|].
  split; [apply resequence_order|].
  split; [apply resequence_content|].
  split; reflexivity.
Qed.

(** C8 at work: the middle one of three layers is removed. *)
Lemma C8_remove_middle_layer :
  exists img',
    removeShaderLayerAtom
      [image_with "other" [blur_off];
       image_with "img" [brightness_02; blur_off; invert_1]] "img" "c"
      !! 1%nat
    = Some img'
    /\ map ShaderLayer.order (CanvasImage.shaderLayers img') = [0; 1]
    /\ map layer_content (CanvasImage.shaderLayers img')
       = map layer_content [brightness_02; invert_1].
Proof.
  destruct (C8_remove_resequences_order
              [image_with "other" [blur_off];
               image_with "img" [brightness_02; blur_off; invert_1]]
              "img" "c" 1%nat
              (image_with "img" [brightness_02; blur_off; invert_1])
              [brightness_02] blur_off [invert_1]
              eq_refl eq_refl eq_refl eq_refl)
    as (img' & Hat & _ & Horder & Hcontent & _).
  - repeat constructor; simpl; discriminate.
  - exists img'. repeat split; assumption.
Defined.

Example remove_middle_layer_computed :
  removeShaderLayerAtom
    [image_with "other" [blur_off];
     image_with "img" [brightness_02; blur_off; invert_1]] "img" "c"
  = [image_with "other" [blur_off];
     image_with "img"
       [brightness_02; ShaderLayer.mk "b" true 1 (InvertProps 1%float)]].
Proof. vm_compute. reflexivity. Qed.

(** ** The fingerprint *)

Lemma string_append_assoc (a b c : string) :
  ((a ++ b) ++ c = a ++ (b ++ c))%string.
Proof.
  induction a as [|x a IH]; [reflexivity|].
  change (String x ((a ++ b) ++ c) = String x (a ++ (b ++ c)))%string.
  now f_equal.
Qed.

Lemma string_append_nil_r (a : string) : (a ++ EmptyString)%string = a.
Proof.
  induction a as [|x a IH]; [reflexivity|].
  change (String x (a ++ EmptyString)%string = String x a). now f_equal.
Qed.

Lemma string_length_append (a b : string) :
  String.length (a ++ b) = (String.length a + String.length b)%nat.
Proof.
  induction a as [|x a IH]; [reflexivity|].
  change (S (String.length (a ++ b)) = S (String.length a + String.length b)).
  now f_equal.
Qed.

Lemma string_append_cancel_l (a b c : string) :
  (a ++ b = a ++ c)%string -> b = c.
Proof.
  induction a as [|x a IH]; [auto|].
  change (String x (a ++ b)%string = String x (a ++ c)%string -> b = c).
  intros [= H]. auto.
Qed.

Lemma string_append_cancel_r (a b c : string) :
  (a ++ c = b ++ c)%string -> a = b.
Proof.
  intros H.
  assert (Hlen : String.length a = String.length b).
  { apply (f_equal String.length) in H.
    rewrite !string_length_append in H. lia. }
  revert b H Hlen. induction a as [|x a IH]; intros [|y b] H Hlen;
    try discriminate Hlen; [reflexivity|].
  change (String x (a ++ c)%string = String y (b ++ c)%string) in H.
  injection H as -> H. f_equal. apply IH; [exact H|].
  now injection Hlen.
Qed.

(** An item of a joined list sits between two texts that the other items
    and the separator determine. *)
Lemma concat_middle (sep : string) (before after : list string) :
  exists left right,
    forall item,
      String.concat sep (before ++ item :: after)
      = (left ++ item ++ right)%string.
Proof.
  induction before as [|x before (left & right & IH)].
  - exists EmptyString.
    destruct after as [|y after].
    + exists EmptyString. intros item. simpl.
      now rewrite string_append_nil_r.
    + exists (sep ++ String.concat sep (y :: after))%string.
      intros item. reflexivity.
  - exists (x ++ sep ++ left)%string, right. intros item.
    change ((x :: before) ++ item :: after)
      with (x :: (before ++ item :: after)).
    assert (Hcons : forall rest,
              rest <> [] ->
              String.concat sep (x :: rest)
              = (x ++ sep ++ String.concat sep rest)%string).
    { intros [|y rest] Hrest; [congruence | reflexivity]. }
    rewrite Hcons by (destruct before; discriminate).
    now rewrite IH, !string_append_assoc.
Qed.

Section Fingerprint.
Variable JSON_number : number -> string.
Variable JSON_string : string -> string.

Lemma getCacheKey_entries imageUrl la lb :
  map object_entry (List.filter LayerObject.enabled la)
  = map object_entry (List.filter LayerObject.enabled lb) ->
  getCacheKey JSON_number JSON_string imageUrl la
  = getCacheKey JSON_number JSON_string imageUrl lb.
Proof.
  intros Hentries. unfold getCacheKey. do 3 f_equal.
  set (f := fun e : string * list string * ShaderProperties =>
              (fst (fst e) ++ ":"
               ++ JSON_stringify JSON_number JSON_string (snd (fst e))
                    (snd e))%string).
  change (map (f ∘ object_entry) (List.filter LayerObject.enabled la)
          = map (f ∘ object_entry) (List.filter LayerObject.enabled lb)).
  rewrite <- !(map_map object_entry f). now rewrite Hentries.
Qed.

Lemma filter_enabled_idem (layers : list LayerObject.t) :
  List.filter LayerObject.enabled (List.filter LayerObject.enabled layers)
  = List.filter LayerObject.enabled layers.
Proof.
  induction layers as [|l layers IH]; simpl; [reflexivity|].
  destruct (LayerObject.enabled l) eqn:E; simpl; rewrite ?E, IH; reflexivity.
Qed.

Lemma getCacheKey_truthy imageUrl layers :
  truthy (getCacheKey JSON_number JSON_string imageUrl layers) = true.
Proof.
  unfold getCacheKey. destruct imageUrl; reflexivity.
Qed.

(** The fingerprint of a list around an enabled layer: the text of the
    layer between two texts that do not depend on it. *)
Lemma getCacheKey_middle imageUrl l1 l2 :
  exists left right,
    forall x,
      LayerObject.enabled x = true ->
      getCacheKey JSON_number JSON_string imageUrl (l1 ++ x :: l2)
      = (left
         ++ (LayerObject.id x ++ ":"
             ++ JSON_stringify JSON_number JSON_string (LayerObject.keys x)
                  (LayerObject.properties x))
         ++ right)%string.
Proof.
  destruct (concat_middle "|"
              (map (fun l => (LayerObject.id l ++ ":"
                              ++ JSON_stringify JSON_number JSON_string
                                   (LayerObject.keys l)
                                   (LayerObject.properties l))%string)
                   (List.filter LayerObject.enabled l1))
              (map (fun l => (LayerObject.id l ++ ":"
                              ++ JSON_stringify JSON_number JSON_string
                                   (LayerObject.keys l)
                                   (LayerObject.properties l))%string)
                   (List.filter LayerObject.enabled l2)))
    as (left & right & Hmid).
  exists (imageUrl ++ "::" ++ left)%string, right. intros x Hx.
  unfold getCacheKey. rewrite List.filter_app. simpl. rewrite Hx.
  rewrite map_app. simpl. rewrite Hmid.
  now rewrite !string_append_assoc.
Qed.

End Fingerprint.

(** C9 (amended): the fingerprint is a function of the source identity and,
    for the enabled layers in order, of the id and of the properties
    object as [JSON.stringify] writes it, its members in the object's own
    order.  Disabled layers do not change it; two arrays whose layer
    objects have equal ids and equal properties objects, members in the
    same order, have the same fingerprint wherever the objects live, and a
    canvas stored under the one is found under the other.  It tells
    sources and layers apart: with the same layers, another source gives
    another fingerprint; and two lists that differ in one enabled layer
    have the same fingerprint only when the texts of that layer, id and
    JSON text of the properties, are the same, so another id, or
    properties with another JSON text, give another fingerprint. *)
Theorem C9_fingerprint_by_value JSON_number JSON_string imageUrl :
  let key := getCacheKey JSON_number JSON_string imageUrl in
  let JSON := fun l =>
    JSON_stringify JSON_number JSON_string (LayerObject.keys l)
                   (LayerObject.properties l) in
  (forall layers,
     key layers = key (List.filter LayerObject.enabled layers))
  /\ (forall l1 x l2,
        LayerObject.enabled x = false ->
        key (l1 ++ x :: l2) = key (l1 ++ l2))
  /\ (forall la lb,
        map object_entry (List.filter LayerObject.enabled la)
        = map object_entry (List.filter LayerObject.enabled lb) ->
        key la = key lb)
  /\ (forall (heap_a heap_b : Heap) array_a array_b,
        read_layers heap_a array_a = read_layers heap_b array_b ->
        getCacheKey_at JSON_number JSON_string heap_a imageUrl array_a
        = getCacheKey_at JSON_number JSON_string heap_b imageUrl array_b)
  /\ (forall cache la lb processed,
        map object_entry (List.filter LayerObject.enabled la)
        = map object_entry (List.filter LayerObject.enabled lb) ->
        JSMap.get (limit_and_set cache (key la) processed) (key lb)
        = Some processed)
  /\ (forall imageUrl' layers,
        getCacheKey JSON_number JSON_string imageUrl' layers = key layers ->
        imageUrl' = imageUrl)
  /\ (forall l1 l2 x x',
        LayerObject.enabled x = true ->
        LayerObject.enabled x' = true ->
        key (l1 ++ x :: l2) = key (l1 ++ x' :: l2) ->
        (LayerObject.id x ++ ":" ++ JSON x
         = LayerObject.id x' ++ ":" ++ JSON x')%string
        /\ (JSON x = JSON x' -> LayerObject.id x = LayerObject.id x')
        /\ (LayerObject.id x = LayerObject.id x' -> JSON x = JSON x')).
Proof.
  intros key JSON. subst key JSON. repeat apply conj.
  - intros layers. apply getCacheKey_entries.
    now rewrite filter_enabled_idem.
  - intros l1 x l2 Hx. apply getCacheKey_entries.
    rewrite !List.filter_app. simpl. now rewrite Hx.
  - intros la lb. apply getCacheKey_entries.
  - intros heap_a heap_b array_a array_b Hread.
    unfold getCacheKey_at. now rewrite Hread.
  - intros cache la lb processed Hentries.
    rewrite (getCacheKey_entries JSON_number JSON_string imageUrl la lb
               Hentries).
    unfold limit_and_set. apply JSMap_get_set_eq.
  - intros imageUrl' layers. unfold getCacheKey.
    apply string_append_cancel_r.
  - intros l1 l2 x x' Hx Hx' Hkey.
    destruct (getCacheKey_middle JSON_number JSON_string imageUrl l1 l2)
      as (left & right & Hmid).
    rewrite (Hmid x Hx), (Hmid x' Hx') in Hkey.
    apply string_append_cancel_l, string_append_cancel_r in Hkey.
    split; [exact Hkey|]. split.
    + intros HJ. rewrite HJ in Hkey.
      now apply string_append_cancel_r in Hkey.
    + intros Hid. rewrite Hid in Hkey.
      now apply string_append_cancel_l, string_append_cancel_l in Hkey.
Qed.

(** C9 at work: two layer objects with equal ids and properties at
    different addresses, the second array with a disabled layer more, give
    one fingerprint; a layer of another id gives another. *)
Lemma C9_equal_layers_at_other_addresses :
  let num := fun _ : number => "0.2" in
  let str := fun s : string => s in
  let heap_a : Heap := {[ 1%nat := LayerObject.built brightness_02 ]} in
  let heap_b : Heap :=
    {[ 2%nat := LayerObject.mk
                  (ShaderLayer.mk "a" true 0 (BrightnessProps 0.2%float))
                  ["value"] ]} in
  getCacheKey_at num str heap_a "photo.png" [1%nat]
  = getCacheKey_at num str heap_b "photo.png" [2%nat]
  /\ getCacheKey num str "photo.png"
       [LayerObject.built brightness_02; LayerObject.built blur_off]
     = getCacheKey num str "photo.png" [LayerObject.built brightness_02]
  /\ getCacheKey num str "photo.png" [LayerObject.built brightness_02]
     <> getCacheKey num str "photo.png"
          [LayerObject.mk
             (ShaderLayer.mk "z" true 0 (BrightnessProps 0.2%float))
             ["value"]].
Proof.
  destruct (C9_fingerprint_by_value (fun _ : number => "0.2")
              (fun s : string => s) "photo.png")
    as (_ & Hdisabled & _ & Hheap & _ & _ & Htells).
  split; [|split].
  - apply Hheap. vm_compute. reflexivity.
  - apply (Hdisabled [LayerObject.built brightness_02]
             (LayerObject.built blur_off) []).
    reflexivity.
  - intros Hkey.
    destruct (Htells [] [] (LayerObject.built brightness_02)
                (LayerObject.mk
                   (ShaderLayer.mk "z" true 0 (BrightnessProps 0.2%float))
                   ["value"])
                eq_refl eq_refl Hkey) as (_ & Hid & _).
    specialize (Hid eq_refl). discriminate Hid.
Defined.

(** C9 as stated fails: two layers that are equal as values, with the same
    id, flag, order and members of [properties], the members added to the
    two objects in different orders, have different fingerprints, and a
    canvas cached for the one is not found for the other. *)
Lemma C9_member_order_changes_fingerprint :
  let num := fun _ : number => "5" in
  let str := fun s : string => s in
  let blur := ShaderLayer.mk "c" true 0 (BlurProps 5%float 5%float) in
  let a := LayerObject.mk blur ["radius"; "quality"] in
  let b := LayerObject.mk blur ["quality"; "radius"] in
  LayerObject.layer a = LayerObject.layer b
  /\ LayerObject.keys a ≡ₚ LayerObject.keys b
  /\ a = LayerObject.built blur
  /\ getCacheKey num str "photo.png" [a]
     = ("photo.png::c:{" ++ dquote ++ "radius" ++ dquote ++ ":5,"
        ++ dquote ++ "quality" ++ dquote ++ ":5}")%string
  /\ getCacheKey num str "photo.png" [b]
     = ("photo.png::c:{" ++ dquote ++ "quality" ++ dquote ++ ":5,"
        ++ dquote ++ "radius" ++ dquote ++ ":5}")%string
  /\ JSMap.get
       (limit_and_set JSMap.empty (getCacheKey num str "photo.png" [a])
          (HTMLCanvasElement.mk 1%nat 100 100))
       (getCacheKey num str "photo.png" [b])
     = None.
Proof.
  cbv zeta. split; [reflexivity|]. split; [apply Permutation_swap|].
  vm_compute. repeat split; reflexivity.
Qed.

(** ** The bound of the cache *)

(** Storing under a key that is not cached: when the cache holds more than
    50 entries its first-inserted entry goes, and the new entry is appended
    in either case. *)
Lemma limit_and_set_fresh (cache : JSMap.t HTMLCanvasElement) k v :
  Forall (fun e => truthy (fst e) = true) cache ->
  k ∉ JSMap.keys cache ->
  limit_and_set cache k v
  = (if (50 <? length cache)%nat then drop 1 cache else cache) ++ [(k, v)].
Proof.
  intros Ht Hk. unfold limit_and_set, JSMap.size.
  destruct (50 <? length cache)%nat eqn:Hsize.
  - destruct cache as [|[k0 v0] rest]; [discriminate|].
    apply Forall_cons in Ht as [Hk0 _]. simpl in Hk0.
    unfold JSMap.first_key. simpl. rewrite Hk0, String.eqb_refl.
    apply JSMap_set_fresh. simpl in Hk.
    now apply not_elem_of_cons in Hk.
  - now apply JSMap_set_fresh.
Qed.

(** After any run of insertions of distinct fingerprints into the empty
    cache, the cache holds the last 51 of them, in insertion order. *)
Lemma insert_all_keeps_last_51 (entries : list (string * HTMLCanvasElement)) :
  NoDup (map fst entries) ->
  Forall (fun e => truthy (fst e) = true) entries ->
  insert_all JSMap.empty entries = drop (length entries - 51) entries.
Proof.
  induction entries as [|[k v] entries IH] using rev_ind; intros Hnd Ht.
  - reflexivity.
  - unfold insert_all in *. rewrite fold_left_app. simpl.
    rewrite map_app in Hnd. simpl in Hnd.
    apply NoDup_app in Hnd as (Hnd & Hfresh & _).
    apply Forall_app in Ht as [Ht _].
    rewrite IH by assumption.
    rewrite limit_and_set_fresh.
    + rewrite length_drop, length_app. simpl.
      destruct (50 <? length entries - (length entries - 51))%nat eqn:Hsize.
      * apply Nat.ltb_lt in Hsize.
        rewrite drop_drop.
        replace (length entries + 1 - 51)%nat
          with (length entries - 51 + 1)%nat by lia.
        rewrite drop_app_le by lia.
        reflexivity.
      * apply Nat.ltb_ge in Hsize.
        replace (length entries - 51)%nat with 0%nat by lia.
        replace (length entries + 1 - 51)%nat with 0%nat by lia.
        reflexivity.
    + apply Forall_forall. intros e He.
      rewrite Forall_forall in Ht. apply Ht.
      eapply subseteq_drop; eauto.
    + intros Hin. apply (Hfresh k).
      * unfold JSMap.keys in Hin.
        apply list_elem_of_fmap in Hin as [e [-> He]].
        apply list_elem_of_fmap. exists e. split; [reflexivity|].
        eapply subseteq_drop; eauto.
      * apply list_elem_of_singleton. reflexivity.
Qed.

(** C1 (the code at the claim's input): 51 insertions of distinct
    fingerprints into the empty cache evict nothing.  The size test
    [size > 50] is made before the entry is added, so the cache then holds
    51 entries and every one of them, the first-inserted included, is
    still returned by [get]. *)
Theorem C1_fifty_first_insertion_evicts_nothing
    (entries : list (string * HTMLCanvasElement)) :
  NoDup (map fst entries) ->
  Forall (fun e => truthy (fst e) = true) entries ->
  length entries = 51%nat ->
  insert_all JSMap.empty entries = entries
  /\ JSMap.size (insert_all JSMap.empty entries) = 51%nat
  /\ forall k v,
       (k, v) ∈ entries ->
       JSMap.get (insert_all JSMap.empty entries) k = Some v.
Proof.
  intros Hnd Htruthy Hlen.
  rewrite (insert_all_keeps_last_51 entries Hnd Htruthy), Hlen.
  simpl. split; [reflexivity|]. split; [exact Hlen|].
  intros k v Hin. now apply JSMap_get_elem.
Qed.

(** C1 at work: the fingerprints ["photo.png::0"], ["photo.png::1"], ... *)
Lemma C1_first_of_51_still_cached :
  JSMap.size (insert_all JSMap.empty fifty_one_entries) = 51%nat
  /\ JSMap.get (insert_all JSMap.empty fifty_one_entries) (fingerprint 0)
     = Some (HTMLCanvasElement.mk 0%nat 100 100).
Proof.
  destruct (C1_fifty_first_insertion_evicts_nothing fifty_one_entries)
    as (_ & Hsize & Hget).
  - apply (bool_decide_unpack _). vm_compute. exact I.
  - apply (bool_decide_unpack _). vm_compute. exact I.
  - reflexivity.
  - split; [exact Hsize|]. apply Hget. apply list_elem_of_here.
Defined.

(** The 52nd distinct fingerprint is the first to evict: the cache stays
    at 51 entries and the first-inserted one is gone. *)
Example fifty_second_insertion_evicts_first :
  let cache :=
    limit_and_set (insert_all JSMap.empty fifty_one_entries)
                  (fingerprint 51) (HTMLCanvasElement.mk 51%nat 100 100) in
  JSMap.size cache = 51%nat
  /\ JSMap.get cache (fingerprint 0) = None
  /\ JSMap.get cache (fingerprint 1)
     = Some (HTMLCanvasElement.mk 1%nat 100 100).
Proof. vm_compute. repeat split; reflexivity. Qed.

(** * Further properties of the code *)

(** ** The layer actions of the store *)

Lemma find_image_id images imageId img :
  find_image images imageId = Some img ->
  String.eqb (CanvasImage.id img) imageId = true.
Proof. intros H. apply find_some in H. tauto. Qed.

Lemma find_image_none images imageId :
  find_image images imageId = None <->
  Forall (fun img => CanvasImage.id img <> imageId) images.
Proof.
  unfold find_image. induction images as [|img images IH]; simpl.
  - split; auto.
  - destruct (String.eqb (CanvasImage.id img) imageId) eqn:E.
    + split; [discriminate|]. intros H. apply Forall_cons in H as [H _].
      apply String.eqb_eq in E. contradiction.
    + rewrite IH. apply String.eqb_neq in E. split.
      * intros H. now constructor.
      * intros H. now apply Forall_cons in H as [_ H].
Qed.

Lemma map_untouched (f : CanvasImage -> CanvasImage) imageId images :
  Forall (fun img => CanvasImage.id img <> imageId) images ->
  (forall img, CanvasImage.id img <> imageId -> f img = img) ->
  map f images = images.
Proof.
  intros Hall Hf. induction Hall as [|img images Himg _ IH]; simpl.
  - reflexivity.
  - now rewrite Hf, IH.
Qed.

Lemma set_shaderLayers_same img :
  CanvasImage.set_shaderLayers img (CanvasImage.shaderLayers img) = img.
Proof. now destruct img. Qed.

Lemma contiguous_resequenced (layers : list ShaderLayer) :
  contiguous (imap (fun index layer => set_order layer index) layers).
Proof.
  unfold contiguous. now rewrite resequence_order, length_imap.
Qed.

Lemma contiguous_snoc layers layer :
  contiguous layers ->
  ShaderLayer.order layer = Z.of_nat (length layers) ->
  contiguous (layers ++ [layer]).
Proof.
  unfold contiguous. intros Hc Ho.
  rewrite map_app, length_app, Hc. simpl.
  rewrite Nat.add_1_r, seq_S, map_app. simpl. now rewrite Ho.
Qed.

(** An identifier that names no image of the store makes every layer
    action leave the store as it is; [add] and [duplicate] then return
    [null]. *)
Theorem actions_on_missing_image images imageId :
  Forall (fun img => CanvasImage.id img <> imageId) images ->
  (forall shaderType newId,
     addShaderLayerAtom images imageId shaderType newId = (None, images))
  /\ (forall layerId,
        removeShaderLayerAtom images imageId layerId = images)
  /\ (forall layerId,
        toggleShaderLayerAtom images imageId layerId = images)
  /\ (forall layerId newOrder,
        reorderShaderLayerAtom images imageId layerId newOrder = images)
  /\ clearShaderLayersAtom images imageId = images
  /\ (forall layerId newId,
        duplicateShaderLayerAtom images imageId layerId newId
        = (None, images)).
Proof.
  intros Hnone. pose proof (proj2 (find_image_none images imageId) Hnone)
    as Hfind.
  repeat split; intros.
  - unfold addShaderLayerAtom. now rewrite Hfind.
  - apply (map_untouched _ imageId); [exact Hnone|].
    intros img Hid. apply String.eqb_neq in Hid. now rewrite Hid.
  - apply (map_untouched _ imageId); [exact Hnone|].
    intros img Hid. apply String.eqb_neq in Hid. now rewrite Hid.
  - unfold reorderShaderLayerAtom. now rewrite Hfind.
  - apply (map_untouched _ imageId); [exact Hnone|].
    intros img Hid. apply String.eqb_neq in Hid. now rewrite Hid.
  - unfold duplicateShaderLayerAtom. now rewrite Hfind.
Qed.

Lemma actions_on_missing_image_example :
  reorderShaderLayerAtom [image_with "img" [brightness_02; invert_1]]
    "gone" "a" 1
  = [image_with "img" [brightness_02; invert_1]].
Proof.
  destruct (actions_on_missing_image
              [image_with "img" [brightness_02; invert_1]] "gone")
    as (_ & _ & _ & Hreorder & _).
  - repeat constructor. simpl. discriminate.
  - apply Hreorder.
Defined.

(** [addShaderLayerAtom] on the image that [find] returns: the new id is
    returned; the image gets one more layer, at the end, enabled, with the
    defaults of its type and [order] equal to the former number of layers;
    images of another id and the number of images are unchanged; and
    contiguous orders stay contiguous. *)
Theorem addShaderLayer_appends images imageId shaderType newId img :
  find_image images imageId = Some img ->
  let r := addShaderLayerAtom images imageId shaderType newId in
  let newLayer :=
    ShaderLayer.mk newId true
      (Z.of_nat (length (CanvasImage.shaderLayers img)))
      (SHADER_DEFAULTS shaderType) in
  fst r = Some newId
  /\ length (snd r) = length images
  /\ (forall j : nat,
        images !! j = Some img ->
        snd r !! j
        = Some (CanvasImage.set_shaderLayers img
                  (CanvasImage.shaderLayers img ++ [newLayer])))
  /\ (forall (j : nat) other,
        images !! j = Some other ->
        CanvasImage.id other <> imageId ->
        snd r !! j = Some other)
  /\ (contiguous (CanvasImage.shaderLayers img) ->
      contiguous (CanvasImage.shaderLayers img ++ [newLayer])).
Proof.
  intros Hfind r newLayer. subst r. unfold addShaderLayerAtom.
  rewrite Hfind. simpl. apply find_image_id in Hfind.
  split; [reflexivity|]. split; [apply length_map|].
  change (map ?f images) with (f <$> images).
  repeat split.
  - intros j Hj. rewrite list_lookup_fmap, Hj. simpl. now rewrite Hfind.
  - intros j other Hj Hid. rewrite list_lookup_fmap, Hj. simpl.
    apply String.eqb_neq in Hid. now rewrite Hid.
  - intros Hc. now apply contiguous_snoc.
Qed.

Lemma addShaderLayer_appends_example :
  snd (addShaderLayerAtom [image_with "img" [brightness_02; invert_1]]
         "img" Pixelate "p") !! 0%nat
  = Some (image_with "img"
            [brightness_02; invert_1;
             ShaderLayer.mk "p" true 2 (PixelateProps 8%float)]).
Proof.
  destruct (addShaderLayer_appends
              [image_with "img" [brightness_02; invert_1]] "img" Pixelate
              "p" (image_with "img" [brightness_02; invert_1]) eq_refl)
    as (_ & _ & Hat & _).
  apply (Hat 0%nat). reflexivity.
Defined.

(** [removeShaderLayerAtom] on any image of the given id, whether or not
    one of its layers has the layer id: no layer of that id is left, the
    layers kept are unchanged but for [order] and in their former relative
    order, and their orders are contiguous from 0 whatever they were. *)
Theorem removeShaderLayer_always_resequences
    images imageId layerId (j : nat) img :
  images !! j = Some img ->
  CanvasImage.id img = imageId ->
  exists layers',
    removeShaderLayerAtom images imageId layerId !! j
    = Some (CanvasImage.set_shaderLayers img layers')
    /\ contiguous layers'
    /\ map layer_content layers'
       = map layer_content
           (List.filter
              (fun layer => negb (String.eqb (ShaderLayer.id layer) layerId))
              (CanvasImage.shaderLayers img))
    /\ layerId ∉ map ShaderLayer.id layers'.
Proof.
  intros Hj Hid. unfold removeShaderLayerAtom.
  change (map ?f images) with (f <$> images).
  rewrite list_lookup_fmap, Hj. simpl.
  apply String.eqb_eq in Hid. rewrite Hid. simpl.
  eexists. split; [reflexivity|].
  split; [apply contiguous_resequenced|].
  split; [apply resequence_content|].
  set (kept := List.filter _ (CanvasImage.shaderLayers img)).
  assert (Hids : map ShaderLayer.id
                     (imap (fun index layer => set_order layer index) kept)
                 = map ShaderLayer.id kept).
  { change (ShaderLayer.id <$> imap (fun index layer => set_order layer index)
                                    kept = ShaderLayer.id <$> kept).
    rewrite fmap_imap, <- (imap_const ShaderLayer.id kept).
    apply imap_ext. reflexivity. }
  rewrite Hids. intros Hin.
  change (layerId ∈ ShaderLayer.id <$> kept) in Hin.
  apply list_elem_of_fmap in Hin as (l & -> & Hl).
  subst kept. apply list_elem_of_In, filter_In in Hl as [_ Hl].
  now rewrite String.eqb_refl in Hl.
Qed.

Lemma removeShaderLayer_absent_id_example :
  exists layers',
    removeShaderLayerAtom
      [image_with "img"
         [ShaderLayer.mk "a" true 7 (BrightnessProps 0.2%float);
          ShaderLayer.mk "b" true 3 (InvertProps 1%float)]] "img" "zzz"
      !! 0%nat
    = Some (image_with "img" layers')
    /\ map ShaderLayer.order layers' = [0; 1].
Proof.
  destruct (removeShaderLayer_always_resequences
              [image_with "img"
                 [ShaderLayer.mk "a" true 7 (BrightnessProps 0.2%float);
                  ShaderLayer.mk "b" true 3 (InvertProps 1%float)]]
              "img" "zzz" 0%nat
              (image_with "img"
                 [ShaderLayer.mk "a" true 7 (BrightnessProps 0.2%float);
                  ShaderLayer.mk "b" true 3 (InvertProps 1%float)])
              eq_refl eq_refl)
    as (layers' & Hat & Hc & Hcontent & _).
  exists layers'. split; [exact Hat|].
  unfold contiguous in Hc. rewrite Hc.
  apply (f_equal (@length _)) in Hcontent. rewrite !length_map in Hcontent.
  rewrite Hcontent. reflexivity.
Defined.

Lemma findIndex_Some {A} (p : A -> bool) (l : list A) (i : nat) :
  findIndex p l = Some i -> exists x, l !! i = Some x /\ p x = true.
Proof.
  revert i. induction l as [|y l IH]; intros i; simpl; [discriminate|].
  destruct (p y) eqn:Hy.
  - intros [= <-]. eauto.
  - destruct (findIndex p l) as [k|]; simpl; [|discriminate].
    intros [= <-]. apply (IH k). reflexivity.
Qed.

Lemma findIndex_None {A} (p : A -> bool) (l : list A) :
  findIndex p l = None -> Forall (fun x => p x = false) l.
Proof.
  induction l as [|y l IH]; simpl; [constructor|].
  destruct (p y) eqn:Hy; [discriminate|].
  destruct (findIndex p l); simpl; [discriminate|].
  intros _. constructor; auto.
Qed.

(** [reorderShaderLayerAtom] on the image that [find] returns.  When no
    layer has the id the store is unchanged.  Otherwise the first layer of
    that id is taken out and put back at index [newOrder] clamped to
    0 .. n-1; the other layers keep their relative order, no layer is lost
    or changed but for [order], and the orders are contiguous from 0. *)
Theorem reorderShaderLayer_moves images imageId layerId newOrder img :
  find_image images imageId = Some img ->
  let layers := CanvasImage.shaderLayers img in
  let r := reorderShaderLayerAtom images imageId layerId newOrder in
  match findIndex (fun l => String.eqb (ShaderLayer.id l) layerId) layers with
  | None => r = images
  | Some currentIndex =>
      let newIndex :=
        Z.to_nat (Z.max 0 (Z.min newOrder (Z.of_nat (length layers - 1)))) in
      exists moved layers',
        layers !! currentIndex = Some moved
        /\ ShaderLayer.id moved = layerId
        /\ (forall j : nat,
              images !! j = Some img ->
              r !! j = Some (CanvasImage.set_shaderLayers img layers'))
        /\ contiguous layers'
        /\ length layers' = length layers
        /\ layers' !! newIndex = Some (set_order moved newIndex)
        /\ map layer_content layers'
           = take newIndex (map layer_content (delete currentIndex layers))
             ++ layer_content moved
             :: drop newIndex (map layer_content (delete currentIndex layers))
        /\ map layer_content layers' ≡ₚ map layer_content layers
  end.
Proof.
  intros Hfind layers r. subst r. unfold reorderShaderLayerAtom.
  rewrite Hfind. fold layers. apply find_image_id in Hfind.
  destruct (findIndex _ layers) as [currentIndex|] eqn:Hidx; [|reflexivity].
  apply findIndex_Some in Hidx as (moved & Hmoved & Hid).
  rewrite Hmoved. apply String.eqb_eq in Hid.
  rewrite <- delete_take_drop.
  assert (Hlen : length (delete currentIndex layers)
                 = (length layers - 1)%nat).
  { rewrite length_delete; [lia | eauto]. }
  rewrite Hlen.
  set (newIndex :=
         Z.to_nat (Z.max 0 (Z.min newOrder (Z.of_nat (length layers - 1))))).
  set (others := delete currentIndex layers) in *.
  assert (Hle : (newIndex <= length others)%nat) by (subst newIndex; lia).
  set (placed := take newIndex others ++ moved :: drop newIndex others).
  assert (Hcontent :
            map layer_content placed
            = take newIndex (map layer_content others)
              ++ layer_content moved
              :: drop newIndex (map layer_content others)).
  { subst placed.
    change (layer_content <$> take newIndex others ++ moved
                              :: drop newIndex others
            = take newIndex (layer_content <$> others)
              ++ layer_content moved
              :: drop newIndex (layer_content <$> others)).
    now rewrite fmap_app, fmap_cons, fmap_take, fmap_drop. }
  exists moved, (imap (fun index l => set_order l index) placed).
  split; [reflexivity|]. split; [exact Hid|].
  split.
  { intros j Hj. change (map ?f images) with (f <$> images).
    rewrite list_lookup_fmap, Hj. simpl. now rewrite Hfind. }
  split; [apply contiguous_resequenced|].
  assert (Hplaced : length placed = length layers).
  { subst placed. rewrite length_app. simpl.
    rewrite length_take, length_drop, Hlen.
    apply lookup_lt_Some in Hmoved. lia. }
  split; [now rewrite length_imap|].
  split.
  { rewrite list_lookup_imap. subst placed.
    rewrite list_lookup_middle; [reflexivity|].
    rewrite length_take. lia. }
  split; [now rewrite resequence_content|].
  rewrite resequence_content, Hcontent.
  rewrite <- Permutation_middle, take_drop.
  subst others.
  change (map layer_content ?l) with (layer_content <$> l).
  rewrite <- (take_drop_middle layers currentIndex moved Hmoved) at 2.
  rewrite fmap_app, fmap_cons, <- Permutation_middle.
  rewrite delete_take_drop, fmap_app. reflexivity.
Qed.

Lemma reorderShaderLayer_moves_example :
  exists layers',
    reorderShaderLayerAtom
      [image_with "img" [brightness_02; invert_1; blur_off]] "img" "c" (-5)
    !! 0%nat
    = Some (image_with "img" layers')
    /\ layers' !! 0%nat = Some (set_order blur_off 0)
    /\ length layers' = 3%nat.
Proof.
  pose proof (reorderShaderLayer_moves
                [image_with "img" [brightness_02; invert_1; blur_off]]
                "img" "c" (-5)
                (image_with "img" [brightness_02; invert_1; blur_off])
                eq_refl) as H.
  cbn in H.
  destruct H as (moved & layers' & Hmoved & _ & Hat & _ & Hlen & Hpos & _).
  injection Hmoved as <-.
  exists layers'. split; [apply (Hat 0%nat); reflexivity|].
  split; [exact Hpos | exact Hlen].
Defined.

Lemma toggle_enabled_twice layer : toggle_enabled (toggle_enabled layer) = layer.
Proof. destruct layer as [id [] order p]; reflexivity. Qed.

Lemma set_shaderLayers_twice img l1 l2 :
  CanvasImage.set_shaderLayers (CanvasImage.set_shaderLayers img l1) l2
  = CanvasImage.set_shaderLayers img l2.
Proof. reflexivity. Qed.

(** [toggleShaderLayerAtom] changes nothing but the [enabled] flag of the
    layers it names, so ids, orders and properties (hence contiguity) are
    kept, and toggling the same layer twice gives the store back. *)
Theorem toggleShaderLayer_involutive images imageId layerId :
  toggleShaderLayerAtom (toggleShaderLayerAtom images imageId layerId)
                        imageId layerId
  = images
  /\ forall (j : nat) img,
       images !! j = Some img ->
       exists layers',
         toggleShaderLayerAtom images imageId layerId !! j
         = Some (CanvasImage.set_shaderLayers img layers')
         /\ map ShaderLayer.order layers'
            = map ShaderLayer.order (CanvasImage.shaderLayers img)
         /\ map fingerprint_entry layers'
            = map fingerprint_entry (CanvasImage.shaderLayers img)
         /\ map ShaderLayer.enabled layers'
            = map (fun l =>
                     if String.eqb (CanvasImage.id img) imageId
                        && String.eqb (ShaderLayer.id l) layerId
                     then negb (ShaderLayer.enabled l)
                     else ShaderLayer.enabled l)
                  (CanvasImage.shaderLayers img).
Proof.
  split.
  - unfold toggleShaderLayerAtom. rewrite map_map.
    transitivity (map (fun img : CanvasImage => img) images);
      [|apply map_id].
    apply map_ext. intros [id url pos size osz layers z lk vis]. cbn.
    destruct (String.eqb id imageId) eqn:Hid; cbn; rewrite Hid; cbn;
      [|reflexivity].
    unfold CanvasImage.set_shaderLayers. cbn. f_equal.
    rewrite map_map.
    transitivity (map (fun l : ShaderLayer => l) layers); [|apply map_id].
    apply map_ext. intros l.
    destruct (String.eqb (ShaderLayer.id l) layerId) eqn:Hl; cbn;
      rewrite Hl; [apply toggle_enabled_twice | reflexivity].
  - intros j img Hj. unfold toggleShaderLayerAtom.
    change (map ?f images) with (f <$> images).
    rewrite list_lookup_fmap, Hj. simpl.
    destruct (String.eqb (CanvasImage.id img) imageId); simpl.
    + eexists. split; [reflexivity|].
      rewrite !map_map. repeat split; apply map_ext; intros l;
        destruct (String.eqb (ShaderLayer.id l) layerId); reflexivity.
    + exists (CanvasImage.shaderLayers img).
      rewrite set_shaderLayers_same. repeat split.
Qed.

Lemma toggleShaderLayer_example :
  exists layers',
    toggleShaderLayerAtom [image_with "img" [brightness_02; blur_off]]
      "img" "c" !! 0%nat
    = Some (image_with "img" layers')
    /\ map ShaderLayer.enabled layers' = [true; true].
Proof.
  destruct (toggleShaderLayer_involutive
              [image_with "img" [brightness_02; blur_off]] "img" "c")
    as [_ H].
  destruct (H 0%nat (image_with "img" [brightness_02; blur_off]) eq_refl)
    as (layers' & Hat & _ & _ & Hen).
  exists layers'. split; [exact Hat | exact Hen].
Defined.

(** [duplicateShaderLayerAtom] on the image that [find] returns and the
    layer that [find] returns in it: the copy goes to the end with the new
    id, the flag and the properties of the original and [order] equal to
    the former number of layers, so it is active exactly when the original
    is and contiguous orders stay contiguous; the original layers are not
    touched. *)
Theorem duplicateShaderLayer_appends_copy
    images imageId layerId newId img layer :
  find_image images imageId = Some img ->
  List.find (fun l => String.eqb (ShaderLayer.id l) layerId)
            (CanvasImage.shaderLayers img) = Some layer ->
  let r := duplicateShaderLayerAtom images imageId layerId newId in
  let copy :=
    ShaderLayer.mk newId (ShaderLayer.enabled layer)
      (Z.of_nat (length (CanvasImage.shaderLayers img)))
      (ShaderLayer.properties layer) in
  fst r = Some newId
  /\ (forall j : nat,
        images !! j = Some img ->
        snd r !! j
        = Some (CanvasImage.set_shaderLayers img
                  (CanvasImage.shaderLayers img ++ [copy])))
  /\ ShaderLayer.id layer = layerId
  /\ hasEffect copy = hasEffect layer
  /\ (contiguous (CanvasImage.shaderLayers img) ->
      contiguous (CanvasImage.shaderLayers img ++ [copy])).
Proof.
  intros Hfind Hlayer r copy. subst r. unfold duplicateShaderLayerAtom.
  rewrite Hfind, Hlayer. simpl. apply find_image_id in Hfind.
  split; [reflexivity|]. split.
  { intros j Hj. change (map ?f images) with (f <$> images).
    rewrite list_lookup_fmap, Hj. simpl. now rewrite Hfind. }
  split.
  { apply find_some in Hlayer as [_ Hl]. now apply String.eqb_eq in Hl. }
  split; [reflexivity|].
  intros Hc. now apply contiguous_snoc.
Qed.

Lemma duplicateShaderLayer_example :
  snd (duplicateShaderLayerAtom
         [image_with "img" [brightness_02; invert_1]] "img" "a" "a2")
  !! 0%nat
  = Some (image_with "img"
            [brightness_02; invert_1;
             ShaderLayer.mk "a2" true 2 (BrightnessProps 0.2%float)]).
Proof.
  destruct (duplicateShaderLayer_appends_copy
              [image_with "img" [brightness_02; invert_1]] "img" "a" "a2"
              (image_with "img" [brightness_02; invert_1]) brightness_02
              eq_refl eq_refl)
    as (_ & Hat & _).
  apply (Hat 0%nat). reflexivity.
Defined.

(** ** The order of the passes *)

Lemma insert_by_order_perm a sorted : insert_by_order a sorted ≡ₚ a :: sorted.
Proof.
  induction sorted as [|b rest IH]; simpl; [reflexivity|].
  destruct (ShaderLayer.order a <=? ShaderLayer.order b); [reflexivity|].
  rewrite IH. apply Permutation_swap.
Qed.

Lemma insert_by_order_sorted a sorted :
  StronglySorted le_order sorted ->
  StronglySorted le_order (insert_by_order a sorted).
Proof.
  induction 1 as [|b rest Hrest IH Hb]; simpl.
  - repeat constructor.
  - destruct (ShaderLayer.order a <=? ShaderLayer.order b) eqn:Hab.
    + apply Z.leb_le in Hab. constructor; [now constructor|].
      constructor; [exact Hab|].
      eapply Forall_impl; [exact Hb|].
      unfold le_order in *. intros x Hx. lia.
    + apply Z.leb_gt in Hab. constructor; [exact IH|].
      rewrite insert_by_order_perm. constructor; [|exact Hb].
      unfold le_order. lia.
Qed.

Lemma insert_by_order_of_order k a sorted :
  of_order k (insert_by_order a sorted) = of_order k (a :: sorted).
Proof.
  unfold of_order. induction sorted as [|b rest IH]; simpl; [reflexivity|].
  destruct (ShaderLayer.order a <=? ShaderLayer.order b) eqn:Hab;
    [reflexivity|].
  apply Z.leb_gt in Hab. simpl. rewrite IH. simpl.
  destruct (ShaderLayer.order a =? k) eqn:Ha; [|reflexivity].
  apply Z.eqb_eq in Ha.
  destruct (ShaderLayer.order b =? k) eqn:Hb; [|reflexivity].
  apply Z.eqb_eq in Hb. lia.
Qed.

(** The list of active layers that [render] walks is the layers with an
    effect, each exactly once, in ascending [order]. *)
Theorem active_layers_sorted_permutation layers :
  let activeLayers := sort_by_order (List.filter hasEffect layers) in
  StronglySorted le_order activeLayers
  /\ activeLayers ≡ₚ List.filter hasEffect layers
  /\ length activeLayers = length (List.filter hasEffect layers)
  /\ forall layer, layer ∈ activeLayers <-> layer ∈ layers
                                         /\ hasEffect layer = true.
Proof.
  intros activeLayers. subst activeLayers.
  assert (Hperm : forall l, sort_by_order l ≡ₚ l).
  { induction l as [|a l IH]; simpl; [reflexivity|].
    now rewrite insert_by_order_perm, IH. }
  split.
  { induction (List.filter hasEffect layers) as [|a l IH]; simpl.
    - constructor.
    - now apply insert_by_order_sorted. }
  split; [apply Hperm|]. split; [now rewrite Hperm|].
  intros layer. rewrite sort_by_order_elem, list_elem_of_In, filter_In.
  now rewrite <- list_elem_of_In.
Qed.

Lemma active_layers_example :
  invert_1 ∈ sort_by_order
               (List.filter hasEffect [blur_off; invert_1; brightness_02]).
Proof.
  destruct (active_layers_sorted_permutation
              [blur_off; invert_1; brightness_02]) as (_ & _ & _ & H).
  apply H. split; [|reflexivity].
  apply list_elem_of_In. simpl. tauto.
Defined.

(** The sort is stable: among the active layers of one [order], the order
    of the input list is kept. *)
Theorem active_layers_stable layers k :
  of_order k (sort_by_order layers) = of_order k layers.
Proof.
  induction layers as [|a layers IH]; simpl; [reflexivity|].
  rewrite insert_by_order_of_order. unfold of_order in *. simpl.
  now rewrite IH.
Qed.

Lemma sort_by_order_sorted_input layers :
  StronglySorted le_order layers -> sort_by_order layers = layers.
Proof.
  induction 1 as [|a layers Hl IH Ha]; simpl; [reflexivity|].
  rewrite IH. destruct layers as [|b rest]; [reflexivity|]. simpl.
  apply Forall_cons in Ha as [Hab _]. apply Z.leb_le in Hab.
  now rewrite Hab.
Qed.

Lemma filter_sorted (p : ShaderLayer -> bool) layers :
  StronglySorted le_order layers ->
  StronglySorted le_order (List.filter p layers).
Proof.
  induction 1 as [|a layers Hl IH Ha]; simpl; [constructor|].
  destruct (p a); [|exact IH]. constructor; [exact IH|].
  apply Forall_forall. intros x Hx.
  apply list_elem_of_In, filter_In in Hx as [Hx _].
  rewrite Forall_forall in Ha. apply Ha. now apply list_elem_of_In.
Qed.

Lemma contiguous_sorted layers :
  contiguous layers -> StronglySorted le_order layers.
Proof.
  unfold contiguous. generalize 0%nat as start.
  induction layers as [|a layers IH]; intros start Hc; [constructor|].
  simpl in Hc. injection Hc as Ha Hrest.
  constructor; [now apply (IH (S start))|].
  apply Forall_forall. intros x Hx.
  assert (Hin : ShaderLayer.order x ∈ map Z.of_nat (seq (S start)
                                                       (length layers))).
  { rewrite <- Hrest. change (ShaderLayer.order x ∈ ShaderLayer.order
                                <$> layers).
    apply list_elem_of_fmap. eauto. }
  change (ShaderLayer.order x ∈ Z.of_nat <$> seq (S start) (length layers))
    in Hin.
  apply list_elem_of_fmap in Hin as (n & Hn & Hseq).
  apply list_elem_of_In, in_seq in Hseq. unfold le_order. lia.
Qed.

(** When the layers of an image come in ascending [order], as the store
    keeps them (contiguous orders are ascending), the passes of [render]
    go through the layers that have an effect in the order of the list. *)
Theorem active_layers_of_ordered_list layers :
  StronglySorted le_order layers \/ contiguous layers ->
  sort_by_order (List.filter hasEffect layers) = List.filter hasEffect layers.
Proof.
  intros H. apply sort_by_order_sorted_input, filter_sorted.
  destruct H as [H | H]; [exact H | now apply contiguous_sorted].
Qed.

Lemma active_layers_of_ordered_list_example :
  sort_by_order (List.filter hasEffect [brightness_02; invert_1; blur_off])
  = List.filter hasEffect [brightness_02; invert_1; blur_off].
Proof.
  apply active_layers_of_ordered_list. right. reflexivity.
Defined.

(** ** The program cache, further *)

(** Once [getProgram] has returned a program for a key, every later
    [getProgram] for that key returns the same program without issuing a
    call and without changing the cache, whatever sources it is given; the
    entries under other keys are the ones there were. *)
Theorem getProgram_memoizes (this : ShaderProgramManager.t) key vs fs d p :
  fst (result (ShaderProgramManager.getProgram this key vs fs d)) = Some p ->
  let this' :=
    snd (result (ShaderProgramManager.getProgram this key vs fs d)) in
  (forall vs' fs' d',
     ShaderProgramManager.getProgram this' key vs' fs' d'
     = (Some p, this', [], d'))
  /\ (forall key',
        key' <> key ->
        JSMap.get (ShaderProgramManager.programs this') key'
        = JSMap.get (ShaderProgramManager.programs this) key').
Proof.
  destruct (JSMap.has (ShaderProgramManager.programs this) key) eqn:Hhas.
  - rewrite (getProgram_hit this key vs fs d Hhas). unfold result. simpl.
    intros Hp. split; [|reflexivity].
    intros vs' fs' d'. rewrite (getProgram_hit this key vs' fs' d' Hhas).
    now rewrite Hp.
  - rewrite (getProgram_miss this key vs fs d Hhas). cbv zeta.
    set (c := result (createProgram vs fs d)). unfold result.
    cbn [fst snd]. destruct c as [p'|]; cbn [fst snd]; [|discriminate].
    intros [= ->]. split.
    + intros vs' fs' d'.
      rewrite getProgram_hit; cbn [ShaderProgramManager.programs].
      * now rewrite JSMap_get_set_eq.
      * unfold JSMap.has. now rewrite JSMap_get_set_eq.
    + intros key' Hne. apply JSMap_get_set_ne. congruence.
Qed.

Lemma getProgram_memoizes_example :
  ShaderProgramManager.getProgram
    (snd (result (ShaderProgramManager.getProgram ShaderProgramManager.new
                    "invert" quadVertexShader invertFragmentShader
                    (scripted []))))
    "invert" quadVertexShader invertFragmentShader (scripted [false])
  = (Some 3%nat,
     snd (result (ShaderProgramManager.getProgram ShaderProgramManager.new
                    "invert" quadVertexShader invertFragmentShader
                    (scripted []))),
     [], scripted [false]).
Proof.
  destruct (getProgram_memoizes ShaderProgramManager.new "invert"
              quadVertexShader invertFragmentShader (scripted []) 3%nat
              eq_refl) as [Hhit _].
  apply Hhit.
Defined.

(** The keys under which [render] caches programs: one per shader type,
    all different, and none equal to the key of the passthrough program. *)
Theorem program_keys_distinct :
  (forall t1 t2, type_name t1 = type_name t2 -> t1 = t2)
  /\ (forall t, type_name t <> "passthrough").
Proof.
  split.
  - intros t1 t2; destruct t1, t2; simpl; intros H;
      first [reflexivity | discriminate H].
  - intros t; destruct t; discriminate.
Qed.

Lemma program_keys_distinct_example :
  type_name HueRotate <> type_name Invert.
Proof.
  destruct program_keys_distinct as [Hinj _].
  intros H. apply Hinj in H. discriminate H.
Defined.

(** The types for which this compositor has no shader of their own (blur
    and the ten types that [hasEffect] always counts as active) are drawn
    with the passthrough fragment shader, and no uniform of the layer is
    set for them. *)
Theorem shaderless_types_draw_passthrough layer :
  always_active (ShaderLayer.type layer) = true
  \/ ShaderLayer.type layer = Blur ->
  getFragmentShader (ShaderLayer.type layer) = passthroughFragmentShader
  /\ forall program d,
       setShaderUniforms program layer d = (tt, [], d).
Proof.
  destruct layer as [id en order p]. unfold ShaderLayer.type. simpl.
  intros [H | H]; destruct p; simpl in H; try discriminate H;
    split; reflexivity.
Qed.

Lemma shaderless_types_example :
  getFragmentShader (ShaderLayer.type blur_off) = passthroughFragmentShader.
Proof.
  destruct (shaderless_types_draw_passthrough blur_off) as [H _].
  - right. reflexivity.
  - exact H.
Defined.

(** ** Objects created and deleted *)

(** Case analysis on the script of a driver given by its fields. *)
Ltac script_cases :=
  repeat (cbn;
          match goal with
          | |- context [match ?ans with [] => _ | _ :: _ => _ end] =>
              is_var ans; destruct ans as [|[] ans]
          end).

Ltac in_list :=
  first [ apply list_elem_of_In; simpl; tauto
        | let s := fresh in
          let Hs := fresh in
          intros s Hs; apply list_elem_of_In in Hs; apply list_elem_of_In;
          simpl in *; tauto ].

Lemma createProgram_outcome vs fs d :
  let r := createProgram vs fs d in
  match result r with
  | Some p =>
      created_programs (calls r) = [p]
      /\ deleted_programs (calls r) = []
      /\ deleted_shaders (calls r) = created_shaders (calls r)
      /\ length (created_shaders (calls r)) = 2%nat
      /\ gl.linkProgram p ∈ calls r
      /\ (next_handle d <= p)%nat
  | None =>
      deleted_programs (calls r) = created_programs (calls r)
      /\ deleted_shaders (calls r) ⊆ created_shaders (calls r)
  end.
Proof.
  destruct d as [ans h ua al].
  cbv [createProgram compileShader create granted fresh result calls mbind
       GL_bind mret GL_ret issue answers next_handle uniform_active
       attrib_location].
  script_cases.
  all: cbn; repeat split; try reflexivity; try lia; in_list.
Qed.

(** [createProgram] returns a program only after it has compiled two
    shaders and linked; the program is then the one object it leaves, the
    two shaders being deleted.  When it returns [null] it leaves no
    program: one that was created has been deleted.  (A shader that
    compiled may then be left: only shaders that failed to compile are
    deleted on that path.) *)
Theorem createProgram_objects vs fs d :
  let r := createProgram vs fs d in
  match result r with
  | Some p =>
      created_programs (calls r) = [p]
      /\ deleted_programs (calls r) = []
      /\ deleted_shaders (calls r) = created_shaders (calls r)
      /\ length (created_shaders (calls r)) = 2%nat
      /\ gl.linkProgram p ∈ calls r
  | None =>
      deleted_programs (calls r) = created_programs (calls r)
      /\ deleted_shaders (calls r) ⊆ created_shaders (calls r)
  end.
Proof.
  pose proof (createProgram_outcome vs fs d) as H. cbv zeta in *.
  destruct (result (createProgram vs fs d)); tauto.
Qed.

(** When the vertex shader fails to compile, the fragment shader is
    compiled all the same and is not deleted. *)
Example createProgram_leaves_compiled_shader :
  let r := createProgram quadVertexShader invertFragmentShader
             (scripted [true; false]) in
  result r = None
  /\ created_shaders (calls r) = [1%nat; 2%nat]
  /\ deleted_shaders (calls r) = [1%nat].
Proof. vm_compute. repeat split; reflexivity. Qed.

Lemma createFramebuffer_outcome width height d :
  let r := createFramebuffer width height d in
  match result r with
  | Some fb =>
      created_framebuffers (calls r) = [Framebuffer.framebuffer fb]
      /\ created_textures (calls r) = [Framebuffer.texture fb]
      /\ deleted_framebuffers (calls r) = []
      /\ deleted_textures (calls r) = []
      /\ Framebuffer.framebuffer fb = next_handle d
      /\ Framebuffer.texture fb = S (next_handle d)
      /\ next_handle (driver r) = S (S (next_handle d))
      /\ Framebuffer.width fb = width
      /\ Framebuffer.height fb = height
      /\ last (calls r) = Some (gl.bindFramebuffer None)
  | None =>
      deleted_framebuffers (calls r) = created_framebuffers (calls r)
      /\ deleted_textures (calls r) = created_textures (calls r)
      /\ (next_handle d <= next_handle (driver r))%nat
  end.
Proof.
  destruct d as [ans h ua al].
  cbv [createFramebuffer createEmptyTexture create granted fresh result
       calls driver mbind GL_bind mret GL_ret issue answers next_handle
       uniform_active attrib_location].
  script_cases.
  all: cbn; repeat split; try reflexivity; lia.
Qed.

(** [createFramebuffer] leaves either a complete framebuffer, made of two
    objects it created, of the requested size and followed by a rebinding
    of the default framebuffer, or nothing: on every failure path each
    object it created is deleted. *)
Theorem createFramebuffer_objects width height d :
  let r := createFramebuffer width height d in
  match result r with
  | Some fb =>
      created_framebuffers (calls r) = [Framebuffer.framebuffer fb]
      /\ created_textures (calls r) = [Framebuffer.texture fb]
      /\ deleted_framebuffers (calls r) = []
      /\ deleted_textures (calls r) = []
      /\ Framebuffer.width fb = width
      /\ Framebuffer.height fb = height
      /\ last (calls r) = Some (gl.bindFramebuffer None)
  | None =>
      deleted_framebuffers (calls r) = created_framebuffers (calls r)
      /\ deleted_textures (calls r) = created_textures (calls r)
  end.
Proof.
  pose proof (createFramebuffer_outcome width height d) as H.
  cbv zeta in *.
  destruct (result (createFramebuffer width height d)); tauto.
Qed.

(** ** The ping-pong pair, further *)

Lemma swaps_index (this : PingPongBuffer.t) (k : nat) :
  PingPongBuffer.currentIndex
    (Nat.iter k PingPongBuffer.swap (PingPongBuffer.reset this))
  = (k mod 2)%nat
  /\ PingPongBuffer.framebuffers
       (Nat.iter k PingPongBuffer.swap (PingPongBuffer.reset this))
     = PingPongBuffer.framebuffers this.
Proof.
  induction k as [|k [IHi IHf]]; [split; reflexivity|].
  rewrite Nat.iter_succ. split.
  - change (PingPongBuffer.currentIndex (PingPongBuffer.swap ?pp))
      with ((PingPongBuffer.currentIndex pp + 1) mod 2)%nat.
    rewrite IHi, Nat.Div0.add_mod_idemp_l. f_equal. lia.
  - change (PingPongBuffer.framebuffers (PingPongBuffer.swap ?pp))
      with (PingPongBuffer.framebuffers pp).
    exact IHf.
Qed.

(** After a [resize] to new dimensions that reports success, both slots
    hold framebuffers made of four different fresh objects.  From [reset]
    on, after any number of [swap]s, the texture read and the framebuffer
    written belong to different slots, alternately: the pair never hands
    out the texture of the framebuffer it is writing to. *)
Theorem resize_success_gives_alternating_pair
    (this : PingPongBuffer.t) width height d :
  (PingPongBuffer.width this =? width)
  && (PingPongBuffer.height this =? height) = false ->
  fst (result (PingPongBuffer.resize this width height d)) = true ->
  let this' := snd (result (PingPongBuffer.resize this width height d)) in
  exists f0 f1,
    PingPongBuffer.framebuffers this' = (Some f0, Some f1)
    /\ Framebuffer.texture f0 <> Framebuffer.texture f1
    /\ Framebuffer.framebuffer f0 <> Framebuffer.framebuffer f1
    /\ forall k,
         let pp := Nat.iter k PingPongBuffer.swap
                     (PingPongBuffer.reset this') in
         let (reading, writing) := if Nat.even k then (f0, f1) else (f1, f0) in
         PingPongBuffer.getReadTexture pp = Some (Framebuffer.texture reading)
         /\ PingPongBuffer.getWriteFramebuffer pp
            = Some (Framebuffer.framebuffer writing)
         /\ PingPongBuffer.getWriteTexture pp
            = Some (Framebuffer.texture writing)
         /\ PingPongBuffer.getReadTexture pp
            <> PingPongBuffer.getWriteTexture pp.
Proof.
  intros Hdims. rewrite (resize_run this width height d Hdims). cbv zeta.
  pose proof (createFramebuffer_outcome width height d) as H0.
  pose proof (createFramebuffer_outcome width height
                (driver (createFramebuffer width height d))) as H1.
  cbv zeta in H0, H1.
  set (r1 := result (createFramebuffer width height
                       (driver (createFramebuffer width height d)))) in *.
  set (r0 := result (createFramebuffer width height d)) in *.
  unfold result. cbn [fst snd].
  destruct r0 as [f0|]; [|discriminate].
  destruct r1 as [f1|]; [|discriminate].
  intros _. exists f0, f1.
  destruct H0 as (_ & _ & _ & _ & Hf0 & Ht0 & Hn0 & _).
  destruct H1 as (_ & _ & _ & _ & Hf1 & Ht1 & _).
  split; [reflexivity|]. split; [lia|]. split; [lia|].
  intros k. cbv zeta.
  unfold PingPongBuffer.getReadTexture, PingPongBuffer.getWriteFramebuffer,
    PingPongBuffer.getWriteTexture.
  destruct (swaps_index
              (PingPongBuffer.mk (Some f0, Some f1)
                 (PingPongBuffer.currentIndex this) width height) k)
    as [Hi Hf].
  rewrite Hi, Hf. cbn [PingPongBuffer.framebuffers].
  rewrite Nat.Div0.add_mod_idemp_l.
  destruct (Nat.even k) eqn:Hk.
  - apply Nat.even_spec in Hk as [m ->].
    replace ((2 * m) mod 2)%nat with 0%nat
      by (rewrite Nat.mul_comm; symmetry; apply Nat.Div0.mod_mul).
    replace ((2 * m + 1) mod 2)%nat with 1%nat
      by (rewrite Nat.add_comm, Nat.mul_comm, Nat.Div0.mod_add; reflexivity).
    cbn. repeat split. intros [=]. lia.
  - assert (Hodd : Nat.odd k = true)
      by (rewrite <- Nat.negb_even, Hk; reflexivity).
    apply Nat.odd_spec in Hodd as [m ->].
    replace ((2 * m + 1) mod 2)%nat with 1%nat
      by (rewrite Nat.add_comm, Nat.mul_comm, Nat.Div0.mod_add; reflexivity).
    replace ((2 * m + 1 + 1) mod 2)%nat with 0%nat
      by (replace (2 * m + 1 + 1)%nat with ((m + 1) * 2)%nat by lia;
          symmetry; apply Nat.Div0.mod_mul).
    cbn. repeat split. intros [=]. lia.
Qed.

Lemma resize_success_alternates_example :
  let pp := PingPongBuffer.swap
              (PingPongBuffer.reset
                 (snd (result (PingPongBuffer.resize PingPongBuffer.new
                                 100 100 (scripted []))))) in
  PingPongBuffer.getReadTexture pp <> PingPongBuffer.getWriteTexture pp.
Proof.
  destruct (resize_success_gives_alternating_pair PingPongBuffer.new 100 100
              (scripted []) eq_refl eq_refl) as (f0 & f1 & _ & _ & _ & H).
  specialize (H 1%nat). cbn in H. apply H.
Defined.

Lemma created_framebuffers_app t1 t2 :
  created_framebuffers (t1 ++ t2)
  = created_framebuffers t1 ++ created_framebuffers t2.
Proof. apply omap_app. Qed.

Lemma created_textures_app t1 t2 :
  created_textures (t1 ++ t2) = created_textures t1 ++ created_textures t2.
Proof. apply omap_app. Qed.

Lemma deleted_framebuffers_app t1 t2 :
  deleted_framebuffers (t1 ++ t2)
  = deleted_framebuffers t1 ++ deleted_framebuffers t2.
Proof. apply omap_app. Qed.

Lemma deleted_textures_app t1 t2 :
  deleted_textures (t1 ++ t2) = deleted_textures t1 ++ deleted_textures t2.
Proof. apply omap_app. Qed.

Lemma dispose_creates_nothing (this : PingPongBuffer.t) d :
  created_framebuffers (calls (PingPongBuffer.dispose this d)) = []
  /\ created_textures (calls (PingPongBuffer.dispose this d)) = [].
Proof.
  rewrite dispose_run.
  destruct (PingPongBuffer.framebuffers this) as [[fb0|] [fb1|]];
    split; reflexivity.
Qed.

(** The pair does not leak: every framebuffer and every texture that
    [resize] creates has been deleted by the end of the next [dispose],
    whether the creation of the pair succeeded, failed half way or was not
    attempted; and [dispose] leaves both slots empty. *)
Theorem resize_then_dispose_frees (this : PingPongBuffer.t) width height d :
  let r := PingPongBuffer.resize this width height d in
  let r' := PingPongBuffer.dispose (snd (result r)) (driver r) in
  created_framebuffers (calls r)
    ⊆ deleted_framebuffers (calls r ++ calls r')
  /\ created_textures (calls r) ⊆ deleted_textures (calls r ++ calls r')
  /\ PingPongBuffer.framebuffers (result r') = (None, None).
Proof.
  cbv zeta.
  destruct ((PingPongBuffer.width this =? width)
            && (PingPongBuffer.height this =? height)) eqn:Hdims.
  - unfold PingPongBuffer.resize. rewrite Hdims.
    rewrite dispose_run. cbn. repeat split; intros x Hx; inversion Hx.
  - rewrite (resize_run this width height d Hdims). cbv zeta.
    pose proof (createFramebuffer_outcome width height d) as H0.
    pose proof (createFramebuffer_outcome width height
                  (driver (createFramebuffer width height d))) as H1.
    pose proof (dispose_creates_nothing
                  (PingPongBuffer.mk (PingPongBuffer.framebuffers this)
                     (PingPongBuffer.currentIndex this) width height) d)
      as [Hx0 Hx1].
    cbv zeta in H0, H1.
    set (f1 := createFramebuffer width height
                 (driver (createFramebuffer width height d))) in *.
    set (f0 := createFramebuffer width height d) in *.
    set (x := PingPongBuffer.dispose _ d) in *.
    clearbody f1. clearbody f0 x.
    destruct f0 as [[r0 t0] d0], f1 as [[r1 t1] d1], x as [[rx tx] dx].
    unfold result, calls, driver in *. cbn [fst snd] in *.
    rewrite dispose_run. cbn [PingPongBuffer.framebuffers fst snd].
    rewrite !created_framebuffers_app, !created_textures_app,
      !deleted_framebuffers_app, !deleted_textures_app, Hx0, Hx1.
    destruct r0 as [fb0|], r1 as [fb1|]; cbn;
      repeat match goal with H : _ /\ _ |- _ => destruct H end;
      repeat match goal with
             | H : created_framebuffers _ = _ |- _ => rewrite H
             | H : created_textures _ = _ |- _ => rewrite H
             | H : deleted_framebuffers _ = _ |- _ => rewrite H
             | H : deleted_textures _ = _ |- _ => rewrite H
             end;
      repeat split;
      intros y Hy; rewrite ?elem_of_app, ?elem_of_cons in *; tauto.
Qed.

(** ** What a render keeps *)

Lemma preserves_refl this : preserves this this.
Proof. unfold preserves. repeat split; auto. Qed.

Lemma preserves_trans a b c : preserves a b -> preserves b c -> preserves a c.
Proof.
  unfold preserves.
  intros (Hp & Ht & Hq & Hw & Hh & Hf & Hpw & Hph)
         (Hp' & Ht' & Hq' & Hw' & Hh' & Hf' & Hpw' & Hph').
  repeat split; try congruence; eauto.
Qed.

Lemma getProgram_grows (this : ShaderProgramManager.t) key vs fs d key' p :
  JSMap.get (ShaderProgramManager.programs this) key' = Some p ->
  JSMap.get (ShaderProgramManager.programs
               (snd (result (ShaderProgramManager.getProgram this key vs fs
                               d)))) key'
  = Some p.
Proof.
  intros Hget.
  destruct (JSMap.has (ShaderProgramManager.programs this) key) eqn:Hhas.
  - rewrite getProgram_hit by exact Hhas. exact Hget.
  - rewrite getProgram_miss by exact Hhas. cbv zeta.
    set (c := result (createProgram vs fs d)). unfold result.
    cbn [fst snd].
    destruct c as [q|]; cbn [snd ShaderProgramManager.programs];
      [|exact Hget].
    rewrite JSMap_get_set_ne; [exact Hget|].
    intros ->. unfold JSMap.has in Hhas. rewrite Hget in Hhas.
    discriminate.
Qed.

Lemma getTexture_grows (this : TextureCache.t) url image d url' x :
  JSMap.get (TextureCache.textures this) url' = Some x ->
  JSMap.get (TextureCache.textures
               (snd (result (TextureCache.getTexture this url image d))))
            url'
  = Some x.
Proof.
  intros Hget. unfold TextureCache.getTexture.
  destruct (JSMap.has (TextureCache.textures this) url) eqn:Hhas;
    [exact Hget|].
  rewrite result_bind.
  destruct (result (createTextureFromImage image d)) as [tx|];
    cbn [result mret GL_ret fst snd TextureCache.textures]; [|exact Hget].
  rewrite JSMap_get_set_ne; [exact Hget|].
  intros ->. unfold JSMap.has in Hhas. rewrite Hget in Hhas. discriminate.
Qed.

Lemma getProgram_preserves this key vs fs d :
  preserves this
    (ShaderCompositor.set_programManager this
       (snd (result (ShaderProgramManager.getProgram
                       (ShaderCompositor.programManager this) key vs fs d)))).
Proof.
  unfold preserves. cbn [ShaderCompositor.set_programManager
    ShaderCompositor.programManager ShaderCompositor.textureCache
    ShaderCompositor.quadRenderer ShaderCompositor.width
    ShaderCompositor.height ShaderCompositor.pingPong].
  repeat split; auto. intros key' p. apply getProgram_grows.
Qed.

Lemma getTexture_preserves this url image d :
  preserves this
    (ShaderCompositor.set_textureCache this
       (snd (result (TextureCache.getTexture
                       (ShaderCompositor.textureCache this) url image d)))).
Proof.
  unfold preserves. cbn [ShaderCompositor.set_textureCache
    ShaderCompositor.programManager ShaderCompositor.textureCache
    ShaderCompositor.quadRenderer ShaderCompositor.width
    ShaderCompositor.height ShaderCompositor.pingPong].
  repeat split; auto. intros url' x. apply getTexture_grows.
Qed.

Lemma renderPass_preserves n i layer this input d :
  preserves this
    (fst (result (ShaderCompositor.renderPass n i layer this input d))).
Proof.
  rewrite renderPass_run. cbv zeta.
  pose proof (getProgram_preserves this (type_name (ShaderLayer.type layer))
                quadVertexShader (getFragmentShader (ShaderLayer.type layer))
                d) as Hg.
  set (g := ShaderProgramManager.getProgram _ _ _ _ d) in *.
  set (this' := ShaderCompositor.set_programManager this _) in *.
  destruct (fst (result g)) as [program|]; [|exact Hg].
  pose proof (drawPass_result n i layer this' program input (driver g)) as Hr.
  cbv beta in Hr. unfold result at 1. cbn [fst snd]. rewrite Hr.
  eapply preserves_trans; [exact Hg|].
  destruct (i =? n - 1)%nat; [apply preserves_refl|].
  unfold preserves. cbn. repeat split; auto.
Qed.

Lemma renderPasses_preserves remaining : forall n i this input d,
  preserves this
    (result (ShaderCompositor.renderPasses n i remaining this input d)).
Proof.
  induction remaining as [|layer remaining IH]; intros n i this input d.
  - apply preserves_refl.
  - simpl. rewrite result_bind.
    pose proof (renderPass_preserves n i layer this input d) as Hp.
    destruct (result (ShaderCompositor.renderPass n i layer this input d))
      as [this' input'].
    eapply preserves_trans; [exact Hp|]. apply IH.
Qed.

Lemma renderPassthrough_preserves this texture d :
  preserves this (result (ShaderCompositor.renderPassthrough this texture d)).
Proof.
  rewrite renderPassthrough_run. cbv zeta.
  pose proof (getProgram_preserves this "passthrough" quadVertexShader
                passthroughFragmentShader d) as Hg.
  set (g := ShaderProgramManager.getProgram _ _ _ _ d) in *.
  set (this' := ShaderCompositor.set_programManager this _) in *.
  destruct (fst (result g)) as [program|]; [|exact Hg].
  pose proof (drawPassthrough_result this' program texture (driver g)) as Hr.
  cbv beta in Hr. unfold result at 1. cbn [fst snd]. rewrite Hr. exact Hg.
Qed.

Lemma renderPass_keeps_framebuffers n i layer this input :
  emits keeps_framebuffers (ShaderCompositor.renderPass n i layer this input).
Proof.
  unfold ShaderCompositor.renderPass, ShaderCompositor.drawPass.
  emits_auto.
  all: unfold setShaderUniforms.
  all: emits_auto.
Qed.

Lemma renderPasses_keeps_framebuffers remaining : forall n i this input,
  emits keeps_framebuffers
        (ShaderCompositor.renderPasses n i remaining this input).
Proof.
  induction remaining as [|layer remaining IH]; intros n i this input.
  - apply emits_ret.
  - simpl. apply emits_bind; [apply renderPass_keeps_framebuffers|].
    intros d.
    destruct (result (ShaderCompositor.renderPass n i layer this input d))
      as [this' input'].
    apply IH.
Qed.

Lemma renderPassthrough_keeps_framebuffers this texture :
  emits keeps_framebuffers (ShaderCompositor.renderPassthrough this texture).
Proof.
  unfold ShaderCompositor.renderPassthrough,
    ShaderCompositor.drawPassthrough.
  emits_auto.
Qed.

Lemma pair_resize_size (this : PingPongBuffer.t) width height d :
  PingPongBuffer.width
    (snd (result (PingPongBuffer.resize this width height d))) = width
  /\ PingPongBuffer.height
       (snd (result (PingPongBuffer.resize this width height d))) = height.
Proof.
  destruct ((PingPongBuffer.width this =? width)
            && (PingPongBuffer.height this =? height)) eqn:Hdims.
  - unfold PingPongBuffer.resize. rewrite Hdims.
    apply andb_true_iff in Hdims as [Hw Hh].
    apply Z.eqb_eq in Hw, Hh. split; assumption.
  - rewrite (resize_run this width height d Hdims). split; reflexivity.
Qed.

Lemma pair_resize_same (this : PingPongBuffer.t) d :
  PingPongBuffer.resize this (PingPongBuffer.width this)
    (PingPongBuffer.height this) d
  = (true, this, [], d).
Proof.
  unfold PingPongBuffer.resize. now rewrite !Z.eqb_refl.
Qed.

Lemma render_preserves this image layers d :
  synced this ->
  preserves this (result (ShaderCompositor.render this image layers d)).
Proof.
  intros [Hw Hh]. unfold ShaderCompositor.render. rewrite result_bind.
  pose proof (getTexture_preserves this (src image) image d) as Hg.
  destruct (result (TextureCache.getTexture
                      (ShaderCompositor.textureCache this) (src image)
                      image d)) as [[texture|] tc]; cbn [snd] in Hg;
    [|exact Hg].
  cbv zeta.
  set (this1 := ShaderCompositor.set_textureCache this tc) in *.
  set (d1 := driver _).
  destruct (length _ =? 0)%nat.
  - eapply preserves_trans; [exact Hg|].
    apply renderPassthrough_preserves.
  - rewrite result_bind.
    replace (ShaderCompositor.width this1)
      with (PingPongBuffer.width (ShaderCompositor.pingPong this1))
      by exact Hw.
    replace (ShaderCompositor.height this1)
      with (PingPongBuffer.height (ShaderCompositor.pingPong this1))
      by exact Hh.
    rewrite pair_resize_same. unfold result at 2. cbn [fst snd].
    eapply preserves_trans; [exact Hg|].
    eapply preserves_trans; [|apply renderPasses_preserves].
    unfold preserves. cbn. repeat split; auto.
Qed.

Lemma render_keeps_framebuffers this image layers :
  synced this ->
  emits keeps_framebuffers (ShaderCompositor.render this image layers).
Proof.
  intros [Hw Hh]. unfold ShaderCompositor.render.
  apply emits_bind; [emits_auto|]. intros d.
  destruct (result (TextureCache.getTexture
                      (ShaderCompositor.textureCache this) (src image)
                      image d)) as [[texture|] tc]; [|apply emits_ret].
  cbv zeta.
  set (this1 := ShaderCompositor.set_textureCache this tc) in *.
  destruct (length _ =? 0)%nat.
  - apply renderPassthrough_keeps_framebuffers.
  - apply emits_bind.
    + intros d'.
      replace (ShaderCompositor.width this1)
        with (PingPongBuffer.width (ShaderCompositor.pingPong this1))
        by exact Hw.
      replace (ShaderCompositor.height this1)
        with (PingPongBuffer.height (ShaderCompositor.pingPong this1))
        by exact Hh.
      rewrite pair_resize_same. constructor.
    + intros d'. destruct (result _) as [ok pp].
      apply renderPasses_keeps_framebuffers.
Qed.

(** The compositor and its ping-pong pair agree on the output size from
    construction on: [resize] records the requested size in both, failed or
    not, and [render] changes neither. *)
Theorem compositor_stays_synced :
  (forall d, synced (result (ShaderCompositor.new d)))
  /\ (forall this width height d,
        let this' := result (ShaderCompositor.resize this width height d) in
        ShaderCompositor.width this' = width
        /\ ShaderCompositor.height this' = height
        /\ (synced this -> synced this'))
  /\ (forall this image layers d,
        synced this ->
        synced (result (ShaderCompositor.render this image layers d))).
Proof.
  split; [|split].
  - intros d. unfold ShaderCompositor.new. rewrite result_bind.
    split; reflexivity.
  - intros this width height d. cbv zeta. unfold ShaderCompositor.resize.
    destruct ((ShaderCompositor.width this =? width)
              && (ShaderCompositor.height this =? height)) eqn:Hdims.
    + apply andb_true_iff in Hdims as [Hw Hh].
      apply Z.eqb_eq in Hw, Hh.
      cbn [result mret GL_ret fst]. auto.
    + rewrite result_bind.
      destruct (pair_resize_size (ShaderCompositor.pingPong this) width
                  height d) as [Hw Hh].
      cbn [ShaderCompositor.pingPong] in *.
      destruct (result (PingPongBuffer.resize
                          (ShaderCompositor.pingPong this) width height d))
        as [ok pp].
      cbn in *. unfold synced. cbn. repeat split; auto.
  - intros this image layers d Hsynced.
    pose proof (render_preserves this image layers d Hsynced)
      as (_ & _ & _ & Hw' & Hh' & _ & Hpw & Hph).
    destruct Hsynced as [Hw Hh]. unfold synced. split; congruence.
Qed.

Lemma compositor_100_stays_synced :
  synced (result (ShaderCompositor.render compositor_100 photo
                    [brightness_02; invert_1] (driver_100 []))).
Proof.
  destruct compositor_stays_synced as (_ & _ & Hrender).
  apply Hrender. split; reflexivity.
Defined.

(** On a compositor whose pair is in step with it, which is every
    compositor built by [new], [resize] and [render], a [render] neither
    creates nor deletes a framebuffer nor attaches a texture to one: it
    reuses the pair that [resize] made, or failed to make.  It keeps the
    quad, the size and the pair's framebuffers, and every program and
    texture that was cached stays cached under its key. *)
Theorem render_reuses_framebuffers this image layers d :
  synced this ->
  Forall keeps_framebuffers
         (calls (ShaderCompositor.render this image layers d))
  /\ preserves this (result (ShaderCompositor.render this image layers d)).
Proof.
  intros Hsynced. split.
  - now apply render_keeps_framebuffers.
  - now apply render_preserves.
Qed.

Lemma render_reuses_framebuffers_example :
  Forall keeps_framebuffers
         (calls (ShaderCompositor.render compositor_100 photo
                   [brightness_02; invert_1] (driver_100 []))).
Proof.
  apply (render_reuses_framebuffers compositor_100 photo
           [brightness_02; invert_1] (driver_100 [])).
  split; reflexivity.
Defined.

(** ** JavaScript maps, further *)

Section JSMapMore.
Context {V : Type}.
Implicit Types (m : JSMap.t V) (k : string) (v : V).

Lemma JSMap_has_key m k : JSMap.has m k = true <-> k ∈ JSMap.keys m.
Proof.
  unfold JSMap.has. induction m as [|[k' v'] m IH]; simpl.
  - split; [discriminate|]. intros H. inversion H.
  - destruct (String.eqb k' k) eqn:E.
    + apply String.eqb_eq in E. subst k'. split; [|reflexivity].
      intros _. apply list_elem_of_here.
    + rewrite IH. apply String.eqb_neq in E. rewrite elem_of_cons.
      split; [tauto|]. intros [Heq | Hin]; [congruence | exact Hin].
Qed.

Lemma JSMap_keys_set m k v :
  JSMap.keys (JSMap.set m k v)
  = if JSMap.has m k then JSMap.keys m else JSMap.keys m ++ [k].
Proof.
  unfold JSMap.has. induction m as [|[k' v'] m IH]; simpl; [reflexivity|].
  destruct (String.eqb k' k) eqn:E; simpl; [reflexivity|].
  rewrite IH. destruct (JSMap.get m k); reflexivity.
Qed.

Lemma JSMap_set_NoDup m k v :
  NoDup (JSMap.keys m) -> NoDup (JSMap.keys (JSMap.set m k v)).
Proof.
  intros Hnd. rewrite JSMap_keys_set.
  destruct (JSMap.has m k) eqn:Hhas; [exact Hnd|].
  apply NoDup_app. split; [exact Hnd|]. split; [|apply NoDup_singleton].
  intros x Hx Hk. apply list_elem_of_singleton in Hk. subst x.
  apply JSMap_has_key in Hx. congruence.
Qed.

Lemma JSMap_keys_delete m k : JSMap.keys (JSMap.delete m k) ⊆ JSMap.keys m.
Proof.
  induction m as [|[k' v'] m IH]; simpl; [reflexivity|].
  destruct (String.eqb k' k); simpl.
  - intros x Hx. now apply list_elem_of_further.
  - intros x Hx. apply elem_of_cons in Hx as [-> | Hx].
    + apply list_elem_of_here.
    + apply list_elem_of_further. now apply IH.
Qed.

Lemma JSMap_delete_NoDup m k :
  NoDup (JSMap.keys m) -> NoDup (JSMap.keys (JSMap.delete m k)).
Proof.
  induction m as [|[k' v'] m IH]; simpl; intros Hnd; [exact Hnd|].
  apply NoDup_cons in Hnd as [Hk' Hnd].
  destruct (String.eqb k' k); simpl; [exact Hnd|].
  apply NoDup_cons. split; [|now apply IH].
  intros Hin. apply Hk'. now apply (JSMap_keys_delete m k).
Qed.

Lemma JSMap_get_delete_eq m k :
  NoDup (JSMap.keys m) -> JSMap.get (JSMap.delete m k) k = None.
Proof.
  induction m as [|[k' v'] m IH]; simpl; intros Hnd; [reflexivity|].
  apply NoDup_cons in Hnd as [Hk' Hnd].
  destruct (String.eqb k' k) eqn:E; simpl.
  - apply String.eqb_eq in E. subst k'. now apply JSMap_get_None.
  - rewrite E. now apply IH.
Qed.

Lemma JSMap_get_delete_ne m k k' :
  k <> k' -> JSMap.get (JSMap.delete m k) k' = JSMap.get m k'.
Proof.
  intros Hne. induction m as [|[k0 v0] m IH]; simpl; [reflexivity|].
  destruct (String.eqb k0 k) eqn:E; simpl.
  - apply String.eqb_eq in E. subst k0.
    apply String.eqb_neq in Hne. now rewrite Hne.
  - now rewrite IH.
Qed.

Lemma JSMap_size_set m k v :
  (JSMap.size (JSMap.set m k v) <= S (JSMap.size m))%nat.
Proof.
  unfold JSMap.size. induction m as [|[k' v'] m IH]; simpl; [lia|].
  destruct (String.eqb k' k); simpl; lia.
Qed.

Lemma JSMap_get_filter (keep : string -> bool) m k :
  JSMap.get (List.filter (fun entry => keep (fst entry)) m) k
  = if keep k then JSMap.get m k else None.
Proof.
  induction m as [|[k' v'] m IH]; simpl.
  - now destruct (keep k).
  - destruct (String.eqb k' k) eqn:E.
    + apply String.eqb_eq in E. subst k'.
      destruct (keep k) eqn:Hk; simpl.
      * now rewrite String.eqb_refl.
      * exact IH.
    + destruct (keep k') eqn:Hk'; simpl; [rewrite E|]; exact IH.
Qed.

End JSMapMore.

(** ** The texture cache *)

Lemma getTexture_hit (this : TextureCache.t) url image d x :
  JSMap.get (TextureCache.textures this) url = Some x ->
  TextureCache.getTexture this url image d = (Some x, this, [], d).
Proof.
  intros Hget. unfold TextureCache.getTexture, JSMap.has.
  rewrite Hget. reflexivity.
Qed.

Lemma getTexture_miss (this : TextureCache.t) url image d :
  JSMap.get (TextureCache.textures this) url = None ->
  let c := createTextureFromImage image d in
  TextureCache.getTexture this url image d
  = (match result c with
     | Some tx =>
         (Some tx,
          TextureCache.mk (JSMap.set (TextureCache.textures this) url tx))
     | None => (None, this)
     end, calls c, driver c).
Proof.
  intros Hget c. unfold TextureCache.getTexture, JSMap.has.
  rewrite Hget, run_bind. fold c.
  destruct (result c); simpl; now rewrite app_nil_r.
Qed.

(** Once [getTexture] has returned a texture for a url, every later
    [getTexture] for that url returns it without a call, whatever image it
    is given: the pixels are uploaded once per url.  [updateTexture] is
    what uploads an image again, into the same texture. *)
Theorem getTexture_uploads_once (this : TextureCache.t) url image d x :
  fst (result (TextureCache.getTexture this url image d)) = Some x ->
  let this' := snd (result (TextureCache.getTexture this url image d)) in
  (forall image' d',
     TextureCache.getTexture this' url image' d' = (Some x, this', [], d'))
  /\ (forall image' d',
        TextureCache.updateTexture this' url image' d'
        = (tt, [gl.bindTexture (Some x); gl.texImage2D_image image'], d')).
Proof.
  intros Hx this'.
  assert (Hget : JSMap.get (TextureCache.textures this') url = Some x).
  { subst this'. revert Hx.
    destruct (JSMap.get (TextureCache.textures this) url) as [y|] eqn:Hy.
    - rewrite (getTexture_hit this url image d y Hy). cbn. congruence.
    - rewrite (getTexture_miss this url image d Hy). cbv zeta.
      set (c := result (createTextureFromImage image d)).
      unfold result. cbn [fst snd].
      destruct c as [tx|]; cbn [fst snd TextureCache.textures];
        [|discriminate].
      intros [= ->]. apply JSMap_get_set_eq. }
  split.
  - intros image' d'. now apply getTexture_hit.
  - intros image' d'. unfold TextureCache.updateTexture. rewrite Hget.
    reflexivity.
Qed.

Lemma getTexture_uploads_once_example :
  TextureCache.getTexture
    (snd (result (TextureCache.getTexture TextureCache.new "photo.png" photo
                    (scripted []))))
    "photo.png" {| src := "photo.png"; complete := false |} (scripted [])
  = (Some 1%nat,
     snd (result (TextureCache.getTexture TextureCache.new "photo.png" photo
                    (scripted []))),
     [], scripted []).
Proof.
  destruct (getTexture_uploads_once TextureCache.new "photo.png" photo
              (scripted []) 1%nat eq_refl) as [Hhit _].
  apply Hhit.
Defined.

(** [removeTexture] deletes the texture cached for the url, if there is
    one, and forgets it, leaving the other entries alone; the next
    [getTexture] for the url starts by creating a texture. *)
Theorem removeTexture_forgets (this : TextureCache.t) url d :
  NoDup (JSMap.keys (TextureCache.textures this)) ->
  let r := TextureCache.removeTexture this url d in
  JSMap.get (TextureCache.textures (result r)) url = None
  /\ (forall url',
        url' <> url ->
        JSMap.get (TextureCache.textures (result r)) url'
        = JSMap.get (TextureCache.textures this) url')
  /\ calls r = match JSMap.get (TextureCache.textures this) url with
               | Some x => [gl.deleteTexture x]
               | None => []
               end
  /\ NoDup (JSMap.keys (TextureCache.textures (result r)))
  /\ forall image d',
       exists r0 rest,
         calls (TextureCache.getTexture (result r) url image d')
         = gl.createTexture r0 :: rest.
Proof.
  intros Hnd r.
  assert (Hnone : JSMap.get (TextureCache.textures (result r)) url = None).
  { subst r. unfold TextureCache.removeTexture.
    destruct (JSMap.get (TextureCache.textures this) url) as [x|] eqn:Hx.
    - cbn [result mbind GL_bind issue mret GL_ret fst snd
           TextureCache.textures].
      now apply JSMap_get_delete_eq.
    - exact Hx. }
  split; [exact Hnone|]. subst r. unfold TextureCache.removeTexture in *.
  destruct (JSMap.get (TextureCache.textures this) url) as [x|] eqn:Hx;
    cbn [result calls mbind GL_bind issue mret GL_ret fst snd
         TextureCache.textures app] in *.
  - split; [intros url' Hne; apply JSMap_get_delete_ne; congruence|].
    split; [reflexivity|]. split; [now apply JSMap_delete_NoDup|].
    intros image d'.
    rewrite (getTexture_miss _ url image d' Hnone). cbv zeta.
    unfold calls at 1. cbn [fst snd]. unfold createTextureFromImage.
    rewrite calls_bind, create_calls. simpl. eauto.
  - split; [reflexivity|]. split; [reflexivity|]. split; [exact Hnd|].
    intros image d'.
    rewrite (getTexture_miss _ url image d' Hnone). cbv zeta.
    unfold calls at 1. cbn [fst snd]. unfold createTextureFromImage.
    rewrite calls_bind, create_calls. simpl. eauto.
Qed.

Lemma removeTexture_forgets_example :
  JSMap.get
    (TextureCache.textures
       (result (TextureCache.removeTexture
                  (TextureCache.mk [("a.png", 1%nat); ("b.png", 2%nat)])
                  "a.png" (scripted []))))
    "a.png"
  = None.
Proof.
  refine (proj1 (removeTexture_forgets
                   (TextureCache.mk [("a.png", 1%nat); ("b.png", 2%nat)])
                   "a.png" (scripted []) _)).
  apply (bool_decide_unpack _). vm_compute. exact I.
Defined.

(** ** The processed-image cache of the hook *)

Lemma processImage_outcome this image layers width height d :
  let r := processImage this image layers width height d in
  match fst (result r) with
  | Some canvas =>
      HTMLCanvasElement.width canvas = width
      /\ HTMLCanvasElement.height canvas = height
      /\ Renderer.processedCache (snd (result r))
         = Renderer.processedCache this
      /\ Renderer.compositor this <> None
      /\ complete image = true
  | None => r = (None, this, [], d)
  end.
Proof.
  intros r. subst r. unfold processImage.
  destruct (Renderer.offscreenCanvas this) as [canvas|]; [|reflexivity].
  destruct (Renderer.compositor this) as [comp|] eqn:Hc; [|reflexivity].
  destruct (complete image) eqn:Hcomplete; cbn [negb]; [|reflexivity].
  destruct (length _ =? 0)%nat; [reflexivity|].
  repeat (rewrite result_bind; cbv beta).
  cbn [result mret GL_ret fst snd HTMLCanvasElement.width
       HTMLCanvasElement.height Renderer.processedCache].
  repeat split. discriminate.
Qed.

Lemma set_cache_ok (cache : JSMap.t HTMLCanvasElement) key canvas :
  NoDup (JSMap.keys cache) ->
  Forall (fun k => truthy k = true) (JSMap.keys cache) ->
  (JSMap.size cache <= 50)%nat ->
  truthy key = true ->
  cache_ok (JSMap.set cache key canvas).
Proof.
  intros Hnd Ht Hsize Hkey. split; [now apply JSMap_set_NoDup|]. split.
  - rewrite JSMap_keys_set. destruct (JSMap.has cache key); [exact Ht|].
    apply Forall_app. split; [exact Ht|]. now repeat constructor.
  - pose proof (JSMap_size_set cache key canvas). lia.
Qed.

Lemma limit_and_set_cache_ok (cache : JSMap.t HTMLCanvasElement) key canvas :
  cache_ok cache -> truthy key = true ->
  cache_ok (limit_and_set cache key canvas).
Proof.
  intros (Hnd & Ht & Hsize) Hkey. unfold limit_and_set.
  destruct (50 <? JSMap.size cache)%nat eqn:Hfull.
  - apply Nat.ltb_lt in Hfull.
    destruct cache as [|[k0 v0] rest]; [simpl in Hfull; lia|].
    cbn [JSMap.first_key JSMap.keys map head fst] in *.
    apply NoDup_cons in Hnd as [_ Hnd].
    apply Forall_cons in Ht as [Hk0 Ht]. rewrite Hk0.
    cbn [JSMap.delete]. rewrite String.eqb_refl.
    apply set_cache_ok; try assumption.
    unfold JSMap.size in *. simpl in Hsize. lia.
  - apply Nat.ltb_ge in Hfull. now apply set_cache_ok.
Qed.

Lemma filter_cache_ok (keep : string -> bool)
    (cache : JSMap.t HTMLCanvasElement) :
  cache_ok cache ->
  cache_ok (List.filter (fun entry => keep (fst entry)) cache).
Proof.
  intros (Hnd & Ht & Hsize).
  assert (Hsub : forall k,
            k ∈ JSMap.keys (List.filter (fun entry => keep (fst entry)) cache)
            -> k ∈ JSMap.keys cache).
  { intros k Hk. unfold JSMap.keys in *.
    change (k ∈ fst <$> List.filter (fun entry => keep (fst entry)) cache)
      in Hk.
    apply list_elem_of_fmap in Hk as (e & -> & He).
    apply list_elem_of_In, filter_In in He as [He _].
    change (e.1 ∈ fst <$> cache). apply list_elem_of_fmap.
    exists e. split; [reflexivity|]. now apply list_elem_of_In. }
  split; [|split].
  - clear Ht Hsize Hsub. induction cache as [|[k v] cache IH]; simpl;
      [constructor|].
    apply NoDup_cons in Hnd as [Hk Hnd].
    destruct (keep k); simpl; [|now apply IH].
    apply NoDup_cons. split; [|now apply IH].
    intros Hin. apply Hk.
    clear -Hin. unfold JSMap.keys in *.
    change (k ∈ fst <$> List.filter (fun entry => keep (fst entry)) cache)
      in Hin.
    apply list_elem_of_fmap in Hin as (e & -> & He).
    apply list_elem_of_In, filter_In in He as [He _].
    change (e.1 ∈ fst <$> cache). apply list_elem_of_fmap.
    exists e. split; [reflexivity|]. now apply list_elem_of_In.
  - apply Forall_forall. intros k Hk. rewrite Forall_forall in Ht.
    apply Ht, Hsub, Hk.
  - unfold JSMap.size in *.
    pose proof (filter_length_le (fun entry => keep (fst entry)) cache).
    lia.
Qed.

(** The cache of processed images holds at most 51 canvases, under
    distinct non-empty keys, at every moment of the life of the hook:
    it is empty on mount, and [getProcessedImage], [clearCache] and
    [invalidateCache] keep it so. *)
Theorem processed_cache_bounded JSON_number JSON_string :
  (forall d, cache_ok (Renderer.processedCache (result (mount d))))
  /\ (forall this image layers width height d,
        cache_ok (Renderer.processedCache this) ->
        cache_ok (Renderer.processedCache
                    (snd (result (getProcessedImage JSON_number JSON_string
                                    this image layers width height d)))))
  /\ (forall this, cache_ok (Renderer.processedCache (clearCache this)))
  /\ (forall this imageUrl,
        cache_ok (Renderer.processedCache this) ->
        cache_ok (Renderer.processedCache (invalidateCache this imageUrl))).
Proof.
  assert (Hempty : cache_ok (@JSMap.empty HTMLCanvasElement)).
  { split; [constructor|]. split; [constructor|]. simpl. lia. }
  split; [|split; [|split]].
  - intros d. unfold mount. rewrite !result_bind.
    destruct (result (granted _)); [rewrite result_bind|]; exact Hempty.
  - intros this image layers width height d Hok.
    assert (Hmiss :
      forall d,
        cache_ok
          (Renderer.processedCache
             (snd (result
                ((processImage this image (map LayerObject.layer layers)
                    width height
                  ≫= (fun '(processed, this) =>
                        match processed with
                        | Some processed =>
                            mret (inl processed,
                                  Renderer.mk (Renderer.offscreenCanvas this)
                                    (Renderer.compositor this)
                                    (limit_and_set
                                       (Renderer.processedCache this)
                                       (getCacheKey JSON_number JSON_string
                                          (src image) layers) processed))
                        | None => mret (inr image, this)
                        end)) d))))).
    { intros d0. rewrite result_bind.
      pose proof (processImage_outcome this image
                    (map LayerObject.layer layers) width height d0)
        as Hp.
      cbv zeta in Hp.
      destruct (processImage this image (map LayerObject.layer layers)
                  width height d0)
        as [[[processed this1] t1] d1].
      unfold result, driver in *. cbn [fst snd] in *.
      destruct processed as [processed|].
      - destruct Hp as (_ & _ & Hcache & _).
        cbn [mret GL_ret fst snd Renderer.processedCache].
        rewrite Hcache. apply limit_and_set_cache_ok; [exact Hok|].
        apply getCacheKey_truthy.
      - injection Hp as <- _ _. exact Hok. }
    unfold getProcessedImage.
    destruct (length _ =? 0)%nat; [exact Hok|].
    destruct (JSMap.get _ _) as [cached|]; [|apply Hmiss].
    destruct (_ && _); [exact Hok | apply Hmiss].
  - intros this. exact Hempty.
  - intros this imageUrl Hok. unfold invalidateCache.
    cbn [Renderer.processedCache].
    apply (filter_cache_ok (fun k => negb (String.prefix imageUrl k))).
    exact Hok.
Qed.

Lemma processed_cache_bounded_example :
  cache_ok
    (Renderer.processedCache
       (snd (result (getProcessedImage (fun _ => "0") (fun s => s)
                       (result (mount (scripted []))) photo
                       [LayerObject.built brightness_02]
                       100 100 (driver (mount (scripted []))))))).
Proof.
  destruct (processed_cache_bounded (fun _ => "0") (fun s => s))
    as (_ & Hget & _).
  apply Hget. vm_compute. repeat split; [constructor | constructor | lia].
Defined.

Lemma prefix_append (s r : string) : String.prefix s (s ++ r)%string = true.
Proof.
  induction s as [|a s IH]; simpl; [now destruct r|].
  destruct (Ascii.ascii_dec a a); [exact IH | congruence].
Qed.

Lemma prefix_append_append (s r t : string) :
  String.prefix s ((s ++ r) ++ t)%string = true.
Proof.
  induction s as [|a s IH]; [now destruct ((EmptyString ++ r) ++ t)%string|].
  simpl.
  destruct (Ascii.ascii_dec a a); [exact IH | congruence].
Qed.

(** [invalidateCache(url)] drops every entry whose key starts with [url]
    and keeps the others as they are.  So no fingerprint of the image is
    cached any longer; nor is a fingerprint of another image whose url
    starts with [url]. *)
Theorem invalidateCache_drops_prefixed
    JSON_number JSON_string this imageUrl :
  let cache' := Renderer.processedCache (invalidateCache this imageUrl) in
  (forall key,
     String.prefix imageUrl key = true -> JSMap.get cache' key = None)
  /\ (forall key,
        String.prefix imageUrl key = false ->
        JSMap.get cache' key = JSMap.get (Renderer.processedCache this) key)
  /\ (forall layers,
        JSMap.get cache'
          (getCacheKey JSON_number JSON_string imageUrl layers) = None)
  /\ (forall suffix layers,
        JSMap.get cache'
          (getCacheKey JSON_number JSON_string (imageUrl ++ suffix)%string
             layers) = None).
Proof.
  intros cache'.
  assert (Hget : forall key,
            JSMap.get cache' key
            = if negb (String.prefix imageUrl key)
              then JSMap.get (Renderer.processedCache this) key else None).
  { intros key. subst cache'. unfold invalidateCache.
    cbn [Renderer.processedCache].
    apply (JSMap_get_filter (fun k => negb (String.prefix imageUrl k))). }
  repeat split.
  - intros key Hkey. now rewrite Hget, Hkey.
  - intros key Hkey. now rewrite Hget, Hkey.
  - intros layers. rewrite Hget. unfold getCacheKey.
    now rewrite prefix_append.
  - intros suffix layers. rewrite Hget. unfold getCacheKey.
    now rewrite prefix_append_append.
Qed.

Lemma invalidateCache_drops_prefixed_example :
  JSMap.get
    (Renderer.processedCache
       (invalidateCache
          (Renderer.mk None None
             [("photo.png::0", HTMLCanvasElement.mk 1%nat 100 100);
              ("other.png::0", HTMLCanvasElement.mk 2%nat 100 100)])
          "photo"))
    "photo.png::0"
  = None.
Proof.
  destruct (invalidateCache_drops_prefixed (fun _ => "0") (fun s => s)
              (Renderer.mk None None
                 [("photo.png::0", HTMLCanvasElement.mk 1%nat 100 100);
                  ("other.png::0", HTMLCanvasElement.mk 2%nat 100 100)])
              "photo") as (Hdrop & _).
  apply Hdrop. reflexivity.
Defined.



(** Without a compositor (the WebGL2 context was refused on mount) or with
    an image that is not loaded yet, [getProcessedImage] issues no call and
    changes nothing; it returns the original image, unless a canvas of the
    requested size is cached under the fingerprint. *)
Theorem getProcessedImage_falls_back
    JSON_number JSON_string this image layers width height d :
  Renderer.compositor this = None \/ complete image = false ->
  let r := getProcessedImage JSON_number JSON_string this image layers
             width height d in
  calls r = [] /\ snd (result r) = this /\ driver r = d
  /\ (fst (result r) = inr image
      \/ exists cached,
           JSMap.get (Renderer.processedCache this)
             (getCacheKey JSON_number JSON_string (src image) layers)
           = Some cached
           /\ fst (result r) = inl cached).
Proof.
  intros Hoff r. subst r.
  assert (Hp : forall d0,
            processImage this image (map LayerObject.layer layers) width
              height d0
            = (None, this, [], d0)).
  { intros d0.
    pose proof (processImage_outcome this image
                    (map LayerObject.layer layers) width height d0)
      as Hp.
    cbv zeta in Hp.
    destruct (fst (result (processImage this image
                             (map LayerObject.layer layers) width height
                             d0)))
      as [canvas|]; [|exact Hp].
    destruct Hp as (_ & _ & _ & Hc & Hi).
    destruct Hoff; [contradiction | congruence]. }
  unfold getProcessedImage.
  destruct (length _ =? 0)%nat; [repeat split; now left|].
  destruct (JSMap.get _ _) as [cached|] eqn:Hcached.
  - destruct (_ && _).
    + repeat split. right. eauto.
    + rewrite run_bind, Hp. repeat split. now left.
  - rewrite run_bind, Hp. repeat split. now left.
Qed.

Lemma getProcessedImage_without_webgl :
  getProcessedImage (fun _ => "0") (fun s => s)
    (result (mount (scripted [false]))) photo
    [LayerObject.built brightness_02] 100 100
    (driver (mount (scripted [false])))
  = (inr photo, result (mount (scripted [false])), [],
     driver (mount (scripted [false]))).
Proof.
  destruct (getProcessedImage_falls_back (fun _ => "0") (fun s => s)
              (result (mount (scripted [false]))) photo
              [LayerObject.built brightness_02]
              100 100 (driver (mount (scripted [false]))))
    as (Hcalls & Hthis & Hdriver & Hres).
  - left. reflexivity.
  - destruct Hres as [Hres | (cached & Hcached & _)];
      [|discriminate Hcached].
    destruct (getProcessedImage _ _ _ _ _ _ _ _) as [[[res this'] t] d'].
    unfold calls, result, driver in *. cbn [fst snd] in *. congruence.
Defined.

(** ** Disposal of the caches *)

Lemma for_each_issue {A} (l : list A) (f : A -> gl.Call) d :
  for_each l (fun x => issue (f x)) d = (tt, map f l, d).
Proof.
  revert d. induction l as [|x l IH]; intros d; [reflexivity|].
  cbn [for_each]. rewrite run_bind, IH. reflexivity.
Qed.

Lemma deleted_programs_map l :
  deleted_programs (map gl.deleteProgram l) = l.
Proof. induction l as [|x l IH]; simpl; [reflexivity|]. now rewrite IH. Qed.

Lemma deleted_textures_map l :
  deleted_textures (map gl.deleteTexture l) = l.
Proof. induction l as [|x l IH]; simpl; [reflexivity|]. now rewrite IH. Qed.

Lemma JSMap_values_set_fresh {V} (m : JSMap.t V) k v :
  JSMap.get m k = None ->
  JSMap.values (JSMap.set m k v) = JSMap.values m ++ [v].
Proof.
  induction m as [|[k' v'] m IH]; simpl; [reflexivity|].
  destruct (String.eqb k' k); [discriminate|].
  intros Hget. simpl. now rewrite IH.
Qed.

(** The program cache does not leak programs: a program that [getProgram]
    creates is deleted at once when it fails to link, and otherwise cached
    and deleted by [dispose], which deletes every cached program and
    empties the cache. *)
Theorem program_cache_frees_programs
    (this : ShaderProgramManager.t) key vs fs d :
  let r := ShaderProgramManager.getProgram this key vs fs d in
  let r' := ShaderProgramManager.dispose (snd (result r)) (driver r) in
  created_programs (calls r) ⊆ deleted_programs (calls r ++ calls r')
  /\ JSMap.values (ShaderProgramManager.programs this)
       ⊆ deleted_programs (calls r')
  /\ ShaderProgramManager.programs (result r') = JSMap.empty.
Proof.
  cbv zeta.
  assert (Hdispose : forall this d,
            ShaderProgramManager.dispose this d
            = (ShaderProgramManager.mk JSMap.empty,
               map gl.deleteProgram
                   (JSMap.values (ShaderProgramManager.programs this)), d)).
  { intros this0 d0. unfold ShaderProgramManager.dispose.
    rewrite run_bind, for_each_issue. cbn. now rewrite app_nil_r. }
  assert (Hr :
    let r := ShaderProgramManager.getProgram this key vs fs d in
    created_programs (calls r)
      ⊆ deleted_programs (calls r)
        ++ JSMap.values (ShaderProgramManager.programs (snd (result r)))
    /\ JSMap.values (ShaderProgramManager.programs this)
         ⊆ JSMap.values (ShaderProgramManager.programs (snd (result r)))).
  { cbv zeta.
    destruct (JSMap.has (ShaderProgramManager.programs this) key) eqn:Hhas.
    - rewrite (getProgram_hit this key vs fs d Hhas).
      cbn. split; [intros x Hx; inversion Hx | reflexivity].
    - rewrite (getProgram_miss this key vs fs d Hhas). cbv zeta.
      pose proof (createProgram_outcome vs fs d) as Hc. cbv zeta in Hc.
      set (c := createProgram vs fs d) in *. clearbody c.
      destruct c as [[res t] d1]. unfold result, calls in *.
      cbn [fst snd] in *.
      destruct res as [p|]; cbn [snd ShaderProgramManager.programs].
      + destruct Hc as (Hcreated & _). rewrite Hcreated.
        rewrite JSMap_values_set_fresh
          by (unfold JSMap.has in Hhas;
              destruct (JSMap.get _ key); [discriminate | reflexivity]).
        split; intros x Hx;
          rewrite ?elem_of_app, ?elem_of_cons in *; tauto.
      + destruct Hc as (Hdeleted & _). rewrite Hdeleted.
        split; intros x Hx;
          rewrite ?elem_of_app, ?elem_of_cons in *; tauto. }
  cbv zeta in Hr.
  set (r := ShaderProgramManager.getProgram this key vs fs d) in *.
  clearbody r. destruct r as [[[res this1] t] d1].
  rewrite Hdispose. unfold result, calls in *. cbn [fst snd] in *.
  unfold deleted_programs at 1. rewrite omap_app.
  change (omap _ t) with (deleted_programs t).
  change (omap _ (map gl.deleteProgram ?l))
    with (deleted_programs (map gl.deleteProgram l)).
  rewrite deleted_programs_map. tauto.
Qed.

Lemma createTextureFromImage_outcome image d :
  let c := createTextureFromImage image d in
  created_textures (calls c)
  = match result c with Some tx => [tx] | None => [] end
  /\ deleted_textures (calls c) = [].
Proof.
  destruct d as [ans h ua al].
  cbv [createTextureFromImage create granted fresh result calls mbind
       GL_bind mret GL_ret issue answers next_handle uniform_active
       attrib_location].
  script_cases.
  all: cbn; split; reflexivity.
Qed.

(** The texture cache does not leak textures: a texture that [getTexture]
    creates is cached, and [dispose] deletes every cached texture and
    empties the cache. *)
Theorem texture_cache_frees_textures
    (this : TextureCache.t) url image d :
  let r := TextureCache.getTexture this url image d in
  let r' := TextureCache.dispose (snd (result r)) (driver r) in
  created_textures (calls r) ⊆ deleted_textures (calls r ++ calls r')
  /\ JSMap.values (TextureCache.textures this) ⊆ deleted_textures (calls r')
  /\ TextureCache.textures (result r') = JSMap.empty.
Proof.
  cbv zeta.
  assert (Hdispose : forall this d,
            TextureCache.dispose this d
            = (TextureCache.mk JSMap.empty,
               map gl.deleteTexture
                   (JSMap.values (TextureCache.textures this)), d)).
  { intros this0 d0. unfold TextureCache.dispose.
    rewrite run_bind, for_each_issue. cbn. now rewrite app_nil_r. }
  assert (Hr :
    let r := TextureCache.getTexture this url image d in
    created_textures (calls r)
      ⊆ JSMap.values (TextureCache.textures (snd (result r)))
    /\ JSMap.values (TextureCache.textures this)
         ⊆ JSMap.values (TextureCache.textures (snd (result r)))).
  { cbv zeta.
    destruct (JSMap.get (TextureCache.textures this) url) as [x|] eqn:Hx.
    - rewrite (getTexture_hit this url image d x Hx).
      cbn. split; [intros y Hy; inversion Hy | reflexivity].
    - rewrite (getTexture_miss this url image d Hx). cbv zeta.
      pose proof (createTextureFromImage_outcome image d) as [Hc _].
      cbv zeta in Hc.
      set (c := createTextureFromImage image d) in *. clearbody c.
      destruct c as [[res t] d1]. unfold result, calls in *.
      cbn [fst snd] in *. rewrite Hc.
      destruct res as [tx|]; cbn [snd TextureCache.textures].
      + rewrite JSMap_values_set_fresh by exact Hx.
        split; intros y Hy;
          rewrite ?elem_of_app, ?elem_of_cons in *; tauto.
      + split; [intros y Hy; inversion Hy | reflexivity]. }
  cbv zeta in Hr.
  set (r := TextureCache.getTexture this url image d) in *.
  clearbody r. destruct r as [[[res this1] t] d1].
  rewrite Hdispose. unfold result, calls in *. cbn [fst snd] in *.
  unfold deleted_textures at 1. rewrite omap_app.
  change (omap _ (map gl.deleteTexture ?l))
    with (deleted_textures (map gl.deleteTexture l)).
  rewrite deleted_textures_map.
  destruct Hr as [Hcreated Hcached].
  split; [|split; [exact Hcached | reflexivity]].
  intros y Hy. apply elem_of_app. right. now apply Hcreated.
Qed.
